(** * Voice-transform pipeline and WAV encoder of the profile page

    Shallow embedding of [voicePresets], [transformAudio] and
    [audioBufferToWav] (profile-script.js, and the identical copy in the
    site script), with the properties of the encoded container.

    Numbers.  A JavaScript number is modelled by [num]: a rational, the two
    infinities, or NaN; the sign of zero is not modelled.  The arithmetic of
    [transformAudio] on the duration and the frame count rounds every result
    to binary64 ([f64], round to nearest, ties to even, with subnormals and
    overflow): a quotient that is a whole number in the rationals may come
    out just below it and lose a frame when it is truncated.  In the encoder
    a channel sample is a binary32 value, its product with 32767 or 32768
    has at most 40 significant bits and is exact in binary64, so the
    products of [scale_sample] are left exact.  Integer-valued variables of
    the code ([pos], [offset], [length]) are in [Z]. *)

From Stdlib Require Import ZArith QArith Qround Qabs Qpower Lia Lqa String.
From Stdlib Require Import Qminmax.
From stdpp Require Import base list gmap strings.

Local Open Scope Z_scope.

(** ** Numbers *)

Inductive num : Type :=
  | NaN
  | PInf
  | NInf
  | Fin (q : Q).

Definition num_of_Z (z : Z) : num := Fin (inject_Z z).

Definition Qsgn (q : Q) : Z := Z.sgn (Qnum q).

(** [a * b] *)
Definition num_mul (a b : num) : num :=
  match a, b with
  | NaN, _ | _, NaN => NaN
  | Fin x, Fin y => Fin (x * y)
  | PInf, PInf | NInf, NInf => PInf
  | PInf, NInf | NInf, PInf => NInf
  | PInf, Fin y | Fin y, PInf =>
      match Qsgn y with 0 => NaN | Zpos _ => PInf | Zneg _ => NInf end
  | NInf, Fin y | Fin y, NInf =>
      match Qsgn y with 0 => NaN | Zpos _ => NInf | Zneg _ => PInf end
  end.

(** [a / b]; a finite non-zero number over zero is an infinity (the zero
    is taken as positive), zero over zero is NaN. *)
Definition num_div (a b : num) : num :=
  match a, b with
  | NaN, _ | _, NaN => NaN
  | Fin x, Fin y =>
      match Qsgn y with
      | 0 => match Qsgn x with 0 => NaN | Zpos _ => PInf | Zneg _ => NInf end
      | _ => Fin (x / y)
      end
  | Fin _, (PInf | NInf) => Fin 0
  | (PInf | NInf), (PInf | NInf) => NaN
  | PInf, Fin y => match Qsgn y with Zneg _ => NInf | _ => PInf end
  | NInf, Fin y => match Qsgn y with Zneg _ => PInf | _ => NInf end
  end.

(** [a < b]; false as soon as one side is NaN. *)
Definition num_ltb (a b : num) : bool :=
  match a, b with
  | NaN, _ | _, NaN => false
  | Fin x, Fin y => if Qlt_le_dec x y then true else false
  | NInf, (Fin _ | PInf) => true
  | Fin _, PInf => true
  | _, _ => false
  end.

(** [Math.max(a, b)] and [Math.min(a, b)]: NaN if either is NaN. *)
Definition Math_max (a b : num) : num :=
  match a, b with
  | NaN, _ | _, NaN => NaN
  | _, _ => if num_ltb a b then b else a
  end.

Definition Math_min (a b : num) : num :=
  match a, b with
  | NaN, _ | _, NaN => NaN
  | _, _ => if num_ltb b a then b else a
  end.

(** Truncation toward zero. *)
Definition Qtrunc (q : Q) : Z := Z.quot (Qnum q) (Zpos (Qden q)).

(** ToIntegerOrInfinity followed by the "not finite gives +0" rule shared by
    ToInt16, ToUint16, ToUint32 and the Web IDL integer conversions. *)
Definition ToIntegerOrZero (x : num) : Z :=
  match x with
  | Fin q => Qtrunc q
  | _ => 0
  end.

Definition ToUint16 (x : num) : Z := ToIntegerOrZero x mod 65536.
Definition ToUint32 (x : num) : Z := ToIntegerOrZero x mod 4294967296.
Definition ToInt16 (x : num) : Z :=
  let u := ToUint16 x in if 32768 <=? u then u - 65536 else u.

(** ** Binary64

    [f64 q] is the binary64 nearest the rational [q]: the significand has
    53 bits, the exponent of the leading bit is at least -1022 (below, the
    spacing stays [2^-1074]: subnormals), a tie goes to the even
    significand, and a result that reaches [2^1024] is an infinity. *)

Definition pow2 (k : Z) : Q := (2 ^ k)%Q.

(** [floor (log2 a)] for a positive [a]. *)
Definition Qlog2 (a : Q) : Z :=
  let e := Z.log2 (Qnum a) - Z.log2 (Zpos (Qden a)) in
  if Qle_bool (pow2 e) a then e else e - 1.

(** The nearest integer, the even one of two that are equally near. *)
Definition round_half_even (x : Q) : Z :=
  let f := Qfloor x in
  match (x - inject_Z f ?= 1 # 2)%Q with
  | Lt => f
  | Gt => f + 1
  | Eq => if Z.even f then f else f + 1
  end.

(** The binary64 nearest a positive rational; [None] on overflow. *)
Definition f64_pos (a : Q) : option Q :=
  let e := Z.max (Qlog2 a) (-1022) in
  let ulp := pow2 (e - 52) in
  let v := Qred (inject_Z (round_half_even (a / ulp)) * ulp) in
  if Qle_bool (pow2 1024) v then None else Some v.

Definition f64 (q : Q) : num :=
  match Qnum q with
  | 0 => Fin 0
  | Zpos _ => match f64_pos q with Some v => Fin v | None => PInf end
  | Zneg _ => match f64_pos (- q) with Some v => Fin (- v) | None => NInf end
  end.

(** Half the spacing of the binary64 numbers next to 1: the relative
    error of one rounding is at most this. *)
Definition f64_eps : Q := 1 # 9007199254740992.

(** [a / b] and [a * b] as the machine computes them: the exact result,
    rounded.  On operands that are binary64 numbers these are the IEEE 754
    operations; a decimal literal of the code stands for its [f64]. *)
Definition f64_div (a b : num) : num :=
  match num_div a b with Fin q => f64 q | x => x end.

Definition f64_mul (a b : num) : num :=
  match num_mul a b with Fin q => f64 q | x => x end.

(** ** Exceptions and results *)

Inductive exn : Type :=
  | RangeError
  | TypeError
  | NotSupportedError
  | EncodingError.

Inductive result (A : Type) : Type :=
  | Ok (a : A)
  | Throw (e : exn)
  | OutOfFuel.
Arguments Ok {A} a.
Arguments Throw {A} e.
Arguments OutOfFuel {A}.

#[global] Instance result_ret : MRet result := fun A a => Ok a.

#[global] Instance result_bind : MBind result := fun A B k m =>
  match m with
  | Ok a => k a
  | Throw e => Throw e
  | OutOfFuel => OutOfFuel
  end.

(** ** ArrayBuffer and DataView *)

(** An [ArrayBuffer] is its bytes, each in [0, 256). *)
Definition ArrayBuffer : Type := list Z.

(** [new ArrayBuffer(length)]: zero-filled; a negative length is a
    RangeError. *)
Definition new_ArrayBuffer (len : Z) : result ArrayBuffer :=
  if len <? 0 then Throw RangeError else Ok (replicate (Z.to_nat len) 0).

Definition byteLength (buf : ArrayBuffer) : Z := Z.of_nat (length buf).

Definition setUint8 (buf : ArrayBuffer) (p : Z) (b : Z) : ArrayBuffer :=
  <[Z.to_nat p := b]> buf.

Definition getUint8 (buf : ArrayBuffer) (p : Z) : Z :=
  default 0 (buf !! Z.to_nat p).

(** A little-endian 16-bit store of the already converted bits [u]; a
    store that does not fit the buffer is a RangeError. *)
Definition put16le (buf : ArrayBuffer) (p : Z) (u : Z) : result ArrayBuffer :=
  if (p <? 0) || (byteLength buf <? p + 2) then Throw RangeError
  else Ok (setUint8 (setUint8 buf p (Z.land u 255))
                    (p + 1) (Z.land (Z.shiftr u 8) 255)).

Definition put32le (buf : ArrayBuffer) (p : Z) (u : Z) : result ArrayBuffer :=
  if (p <? 0) || (byteLength buf <? p + 4) then Throw RangeError
  else Ok (setUint8 (setUint8 (setUint8 (setUint8 buf
             p (Z.land u 255))
             (p + 1) (Z.land (Z.shiftr u 8) 255))
             (p + 2) (Z.land (Z.shiftr u 16) 255))
             (p + 3) (Z.land (Z.shiftr u 24) 255)).

Definition DataView_setUint16 (buf : ArrayBuffer) (p : Z) (v : num) :=
  put16le buf p (ToUint16 v).
Definition DataView_setUint32 (buf : ArrayBuffer) (p : Z) (v : num) :=
  put32le buf p (ToUint32 v).
(** [setInt16] stores [ToInt16 v] in two's complement, which are the bits
    of [ToUint16 v]. *)
Definition DataView_setInt16 (buf : ArrayBuffer) (p : Z) (v : num) :=
  put16le buf p (ToUint16 v).

(** Little-endian readers, used to parse a container back. *)
Definition getUint16 (buf : ArrayBuffer) (p : Z) : Z :=
  Z.lor (getUint8 buf p) (Z.shiftl (getUint8 buf (p + 1)) 8).

Definition getUint32 (buf : ArrayBuffer) (p : Z) : Z :=
  Z.lor (Z.lor (getUint8 buf p) (Z.shiftl (getUint8 buf (p + 1)) 8))
        (Z.lor (Z.shiftl (getUint8 buf (p + 2)) 16)
               (Z.shiftl (getUint8 buf (p + 3)) 24)).

Definition getInt16 (buf : ArrayBuffer) (p : Z) : Z :=
  let u := getUint16 buf p in if 32768 <=? u then u - 65536 else u.

(** ** AudioBuffer *)

(** The Web Audio [AudioBuffer]: a sample rate in Hz, a length in frames and
    one sample sequence per channel. *)
Record AudioBuffer : Type := {
  ab_sampleRate : Z;
  ab_length : Z;
  ab_channels : list (list num)
}.

Definition numberOfChannels (b : AudioBuffer) : Z :=
  Z.of_nat (length (ab_channels b)).

(** What the platform guarantees of an [AudioBuffer]: every channel has
    [length] samples, at least one channel and at most 32, at least one
    frame, a positive sample rate. *)
Record wf_AudioBuffer (b : AudioBuffer) : Prop := {
  wf_rate : 0 < ab_sampleRate b;
  wf_length : 0 < ab_length b;
  wf_chan_lo : 0 < numberOfChannels b;
  wf_chan_hi : numberOfChannels b <= 32;
  wf_channels :
    Forall (fun ch : list num => Z.of_nat (length ch) = ab_length b)
           (ab_channels b)
}.

(** [audioBuffer.getChannelData(i)] *)
Definition getChannelData (b : AudioBuffer) (i : nat) : result (list num) :=
  match ab_channels b !! i with
  | Some ch => Ok ch
  | None => Throw RangeError
  end.

(** [channels[i][offset]] read as a number: a missing element is
    [undefined], which [Math.min] turns into NaN. *)
Definition sample_at (ch : list num) (offset : Z) : num :=
  if offset <? 0 then NaN else default NaN (ch !! Z.to_nat offset).

(** ** audioBufferToWav *)

(** The [DataView] together with the write cursor [pos]. *)
Record writer : Type := { view : ArrayBuffer; pos : Z }.

Definition setUint16 (data : num) (w : writer) : result writer :=
  v ← DataView_setUint16 (view w) (pos w) data;
  mret {| view := v; pos := pos w + 2 |}.

Definition setUint32 (data : num) (w : writer) : result writer :=
  v ← DataView_setUint32 (view w) (pos w) data;
  mret {| view := v; pos := pos w + 4 |}.

(** [Math.max(-1, Math.min(1, x))] *)
Definition clamp_sample (x : num) : num :=
  Math_max (num_of_Z (-1)) (Math_min (num_of_Z 1) x).

(** [sample < 0 ? sample * 0x8000 : sample * 0x7FFF] *)
Definition scale_sample (s : num) : num :=
  if num_ltb s (num_of_Z 0) then num_mul s (num_of_Z 0x8000)
  else num_mul s (num_of_Z 0x7FFF).

(** The int16 that [view.setInt16] stores for the raw sample [x]. *)
Definition quantize (x : num) : Z := ToInt16 (scale_sample (clamp_sample x)).

(** The loop that fills [channels]. *)
Fixpoint push_channels (b : AudioBuffer) (n i : nat)
    (channels : list (list num)) : result (list (list num)) :=
  match n with
  | O => Ok channels
  | S n' =>
      ch ← getChannelData b i;
      push_channels b n' (S i) (channels ++ [ch])
  end.

(** The inner [for] loop: one frame, [n] channels left, starting at
    channel [i]. *)
Fixpoint write_frame (channels : list (list num)) (offset : Z)
    (n i : nat) (w : writer) : result writer :=
  match n with
  | O => Ok w
  | S n' =>
      match channels !! i with
      | None => Throw TypeError
      | Some ch =>
          let sample := clamp_sample (sample_at ch offset) in
          let sample := scale_sample sample in
          v ← DataView_setInt16 (view w) (pos w) sample;
          write_frame channels offset n' (S i)
                      {| view := v; pos := pos w + 2 |}
      end
  end.

(** The [while (pos < length - 44)] loop. *)
Fixpoint write_frames (fuel : nat) (channels : list (list num))
    (numOfChan len offset : Z) (w : writer) : result writer :=
  if pos w <? len - 44 then
    match fuel with
    | O => OutOfFuel
    | S fuel' =>
        w' ← write_frame channels offset (Z.to_nat numOfChan) 0 w;
        write_frames fuel' channels numOfChan len (offset + 1) w'
    end
  else Ok w.

Definition write_header (numOfChan len rate : Z) (w : writer)
    : result writer :=
  w ← setUint32 (num_of_Z 0x46464952) w;
  w ← setUint32 (num_of_Z (len - 8)) w;
  w ← setUint32 (num_of_Z 0x45564157) w;
  w ← setUint32 (num_of_Z 0x20746d66) w;
  w ← setUint32 (num_of_Z 16) w;
  w ← setUint16 (num_of_Z 1) w;
  w ← setUint16 (num_of_Z numOfChan) w;
  w ← setUint32 (num_of_Z rate) w;
  w ← setUint32 (num_of_Z (rate * 2 * numOfChan)) w;
  w ← setUint16 (num_of_Z (numOfChan * 2)) w;
  w ← setUint16 (num_of_Z 16) w;
  w ← setUint32 (num_of_Z 0x61746164) w;
  setUint32 (num_of_Z (len - pos w - 4)) w.

(** The bytes of the returned [Blob].  The [while] loop gets [length]
    units of fuel, which is more than it can use: every turn moves [pos]
    forward by two bytes per channel. *)
Definition audioBufferToWav (audioBuffer : AudioBuffer)
    : result ArrayBuffer :=
  let numOfChan := numberOfChannels audioBuffer in
  let len := ab_length audioBuffer * numOfChan * 2 + 44 in
  buffer ← new_ArrayBuffer len;
  w ← write_header numOfChan len (ab_sampleRate audioBuffer)
        {| view := buffer; pos := 0 |};
  channels ← push_channels audioBuffer (Z.to_nat numOfChan) 0 [];
  w ← write_frames (Z.to_nat len) channels numOfChan len 0 w;
  mret (view w).

(** ** Voice presets *)

Record Preset : Type := { pitch : num; speed : num }.

Definition voicePresets : gmap string Preset :=
  list_to_map
    [("original", {| pitch := Fin 0; speed := Fin 1 |});
     ("deep-male", {| pitch := Fin (-4); speed := Fin 0.95 |});
     ("male", {| pitch := Fin (-2); speed := Fin 1 |});
     ("female", {| pitch := Fin 4; speed := Fin 1.05 |});
     ("high-female", {| pitch := Fin 6; speed := Fin 1.1 |});
     ("robotic", {| pitch := Fin (-1); speed := Fin 0.9 |})]%string.

(** ** The Web Audio calls of [transformAudio]

    The offline context is a mutable object: the nodes created on it (a
    node is named by its index), the connections made, and the three
    constructor arguments.  What the browser does with it (decoding,
    [Math.pow], the samples a rendering produces, the memory it has for a
    rendering) is a parameter, [Platform]. *)

Inductive BiquadFilterType : Type := lowpass | highpass | bandpass.

Inductive AudioNode : Type :=
  | AudioBufferSourceNode (buffer : option AudioBuffer) (playbackRate : num)
      (started : option num)
  | BiquadFilterNode (type : BiquadFilterType) (frequency : num).

Inductive Target : Type :=
  | node (i : nat)
  | destination.

Record OfflineAudioContext : Type := {
  oc_numberOfChannels : Z;
  oc_length : Z;
  oc_sampleRate : Z;
  oc_nodes : list AudioNode;
  oc_connections : list (nat * Target)
}.

Record Platform : Type := {
  (** [audioContext.sampleRate] *)
  context_sampleRate : Z;
  (** [audioContext.decodeAudioData], on the bytes of the blob *)
  decodeAudioData : list Z -> result AudioBuffer;
  (** [Math.pow] *)
  Math_pow : num -> num -> num;
  (** the sample that rendering the context yields for a channel and a
      frame *)
  render_sample : OfflineAudioContext -> Z -> Z -> num;
  (** the largest number of samples (frames times channels) for which the
      platform finds the memory of a rendering *)
  render_capacity : Z
}.

(** What the Web Audio API promises of decoding: a well-formed buffer,
    resampled to the rate of the context. *)
Record PlatformOk (P : Platform) : Prop := {
  context_rate_pos : 0 < context_sampleRate P;
  (** a whole number of Hz that fits the 32-bit field of the header
      (browsers stop at 768000) *)
  context_rate_hi : context_sampleRate P < 2 ^ 32;
  decode_wf : forall blob b,
    decodeAudioData P blob = Ok b -> wf_AudioBuffer b;
  decode_rate : forall blob b,
    decodeAudioData P blob = Ok b ->
    ab_sampleRate b = context_sampleRate P
}.

(** The Web IDL type [float], as the value of an [AudioParam] is: the
    number, a binary64, is finite and its nearest binary32 is finite too,
    which it is below [2^128 - 2^103], half way from the largest binary32
    to [2^128]. *)
Definition float_limit : Q := inject_Z (2 ^ 128 - 2 ^ 103).

Definition is_float (x : num) : bool :=
  match x with
  | Fin q =>
      match f64 q with
      | Fin r => negb (Qle_bool float_limit (Qabs r))
      | _ => false
      end
  | _ => false
  end.

(** [audioBuffer.duration]: length over sample rate, in seconds, a
    binary64. *)
Definition ab_duration (b : AudioBuffer) : num :=
  f64_div (num_of_Z (ab_length b)) (num_of_Z (ab_sampleRate b)).

(** [new OfflineAudioContext(numberOfChannels, length, sampleRate)].  The
    length is an [unsigned long]: it is converted like [ToUint32].  No
    channel, a zero length or a non-positive rate is a NotSupportedError
    (what the platform can allocate is looked at by [startRendering]). *)
Definition new_OfflineAudioContext (numberOfChannels : Z) (len : num)
    (sampleRate : Z) : result OfflineAudioContext :=
  let length := ToUint32 len in
  if (numberOfChannels <? 1) || (length =? 0) || (sampleRate <=? 0)
  then Throw NotSupportedError
  else Ok {| oc_numberOfChannels := numberOfChannels;
             oc_length := length;
             oc_sampleRate := sampleRate;
             oc_nodes := [];
             oc_connections := [] |}.

Definition add_node (n : AudioNode) (ctx : OfflineAudioContext)
    : nat * OfflineAudioContext :=
  (length (oc_nodes ctx),
   {| oc_numberOfChannels := oc_numberOfChannels ctx;
      oc_length := oc_length ctx;
      oc_sampleRate := oc_sampleRate ctx;
      oc_nodes := oc_nodes ctx ++ [n];
      oc_connections := oc_connections ctx |}).

Definition update_node (i : nat) (f : AudioNode -> AudioNode)
    (ctx : OfflineAudioContext) : OfflineAudioContext :=
  {| oc_numberOfChannels := oc_numberOfChannels ctx;
     oc_length := oc_length ctx;
     oc_sampleRate := oc_sampleRate ctx;
     oc_nodes := alter f i (oc_nodes ctx);
     oc_connections := oc_connections ctx |}.

(** [offlineContext.createBufferSource()]: no buffer, rate 1, not
    started. *)
Definition createBufferSource (ctx : OfflineAudioContext) :=
  add_node (AudioBufferSourceNode None (num_of_Z 1) None) ctx.

(** [offlineContext.createBiquadFilter()]: a low-pass at 350 Hz. *)
Definition createBiquadFilter (ctx : OfflineAudioContext) :=
  add_node (BiquadFilterNode lowpass (num_of_Z 350)) ctx.

(** [source.buffer = audioBuffer] *)
Definition set_buffer (i : nat) (b : AudioBuffer) :=
  update_node i (fun n =>
    match n with
    | AudioBufferSourceNode _ r s => AudioBufferSourceNode (Some b) r s
    | _ => n
    end).

(** [param.value = v]: an [AudioParam] takes a [float], anything else
    (NaN, an infinity, a number beyond the range of binary32) is a
    TypeError.  The node is shown with the number it was assigned. *)
Definition set_param (v : num) (set : OfflineAudioContext -> OfflineAudioContext)
    (ctx : OfflineAudioContext) : result OfflineAudioContext :=
  if is_float v then Ok (set ctx) else Throw TypeError.

(** [source.playbackRate.value = v] *)
Definition set_playbackRate (i : nat) (v : num) :=
  set_param v (update_node i (fun n =>
    match n with
    | AudioBufferSourceNode b _ s => AudioBufferSourceNode b v s
    | _ => n
    end)).

(** [filter.type = t] *)
Definition set_type (i : nat) (t : BiquadFilterType) :=
  update_node i (fun n =>
    match n with
    | BiquadFilterNode _ f => BiquadFilterNode t f
    | _ => n
    end).

(** [filter.frequency.value = v] *)
Definition set_frequency (i : nat) (v : num) :=
  set_param v (update_node i (fun n =>
    match n with
    | BiquadFilterNode t _ => BiquadFilterNode t v
    | _ => n
    end)).

(** [a.connect(b)] *)
Definition connect (i : nat) (t : Target) (ctx : OfflineAudioContext)
    : OfflineAudioContext :=
  {| oc_numberOfChannels := oc_numberOfChannels ctx;
     oc_length := oc_length ctx;
     oc_sampleRate := oc_sampleRate ctx;
     oc_nodes := oc_nodes ctx;
     oc_connections := oc_connections ctx ++ [(i, t)] |}.

(** [source.start(when)] *)
Definition start (i : nat) (when : num) :=
  update_node i (fun n =>
    match n with
    | AudioBufferSourceNode b r _ => AudioBufferSourceNode b r (Some when)
    | _ => n
    end).

(** [offlineContext.startRendering()]: a buffer with the channel count,
    length and rate of the context, filled by the platform; the rendering
    fails when the platform has no memory for that buffer. *)
Definition rendered_buffer (P : Platform) (ctx : OfflineAudioContext)
    : AudioBuffer :=
  {| ab_sampleRate := oc_sampleRate ctx;
     ab_length := oc_length ctx;
     ab_channels :=
       (fun c => render_sample P ctx c <$> seqZ 0 (oc_length ctx))
         <$> seqZ 0 (oc_numberOfChannels ctx) |}.

Definition startRendering (P : Platform) (ctx : OfflineAudioContext)
    : result AudioBuffer :=
  if render_capacity P <? oc_length ctx * oc_numberOfChannels ctx
  then Throw NotSupportedError
  else Ok (rendered_buffer P ctx).

(** ** transformAudio *)

(** [transformAudio] up to the point where the graph is complete. *)
Definition transformAudio_graph (P : Platform) (audioBlob : list Z)
    (pitchShift playbackRate : num) : result OfflineAudioContext :=
  audioBuffer ← decodeAudioData P audioBlob;
  let pitchRatio :=
    Math_pow P (num_of_Z 2) (num_div pitchShift (num_of_Z 12)) in
  let duration := f64_div (ab_duration audioBuffer) playbackRate in
  offlineContext ← new_OfflineAudioContext
    (numberOfChannels audioBuffer)
    (f64_mul duration (num_of_Z (context_sampleRate P)))
    (context_sampleRate P);
  let '(source, offlineContext) := createBufferSource offlineContext in
  let offlineContext := set_buffer source audioBuffer offlineContext in
  offlineContext ← set_playbackRate source
    (num_mul playbackRate pitchRatio) offlineContext;
  let '(filter, offlineContext) := createBiquadFilter offlineContext in
  let offlineContext := set_type filter lowpass offlineContext in
  offlineContext ← set_frequency filter (num_of_Z 3000) offlineContext;
  let offlineContext := connect source (node filter) offlineContext in
  let offlineContext := connect filter destination offlineContext in
  mret (start source (num_of_Z 0) offlineContext).

(** ... up to the rendered buffer. *)
Definition transformAudio_render (P : Platform) (audioBlob : list Z)
    (pitchShift playbackRate : num) : result AudioBuffer :=
  offlineContext ← transformAudio_graph P audioBlob pitchShift playbackRate;
  startRendering P offlineContext.

Definition transformAudio (P : Platform) (audioBlob : list Z)
    (pitchShift playbackRate : num) : result ArrayBuffer :=
  renderedBuffer ← transformAudio_render P audioBlob pitchShift playbackRate;
  audioBufferToWav renderedBuffer.

(** [Math.round] *)
Definition Math_round (q : Q) : Z := Qfloor (q + (1 # 2))%Q.

(** The two numbers [transformAudio] hands to the platform. *)
Definition combinedRate (P : Platform) (pitchShift playbackRate : num) : num :=
  num_mul playbackRate
    (Math_pow P (num_of_Z 2) (num_div pitchShift (num_of_Z 12))).

Definition requestedLength (P : Platform) (b : AudioBuffer)
    (playbackRate : num) : num :=
  f64_mul (f64_div (ab_duration b) playbackRate)
          (num_of_Z (context_sampleRate P)).

(** ** A small platform, to run the pipeline on concrete inputs

    The blob is read as unsigned 8-bit mono PCM at 48 kHz; [Math.pow] is
    replaced by the chord of [2^y] between -1, 0 and 1 (exact at these
    three points); rendering plays the source by sample-and-hold and is
    silent once the source has ended; there is memory for 2^28 samples, a
    gigabyte of binary32. *)

Definition demo_decode (blob : list Z) : result AudioBuffer :=
  match blob with
  | [] => Throw EncodingError
  | _ =>
      Ok {| ab_sampleRate := 48000;
            ab_length := Z.of_nat (length blob);
            ab_channels :=
              [(fun byte => Fin ((inject_Z byte - 128) / 128)) <$> blob] |}
  end.

Definition demo_pow (a y : num) : num :=
  match a, y with
  | Fin _, Fin y => if Qlt_le_dec y 0 then Fin (1 + y / 2) else Fin (1 + y)
  | _, _ => NaN
  end.

Definition demo_render (ctx : OfflineAudioContext) (c f : Z) : num :=
  match oc_nodes ctx !! 0%nat with
  | Some (AudioBufferSourceNode (Some b) (Fin r) (Some _)) =>
      match ab_channels b !! Z.to_nat c with
      | Some ch => default (Fin 0) (ch !! Z.to_nat (Qfloor (inject_Z f * r)))
      | None => Fin 0
      end
  | _ => Fin 0
  end.

Definition demo_platform : Platform :=
  {| context_sampleRate := 48000;
     decodeAudioData := demo_decode;
     Math_pow := demo_pow;
     render_sample := demo_render;
     render_capacity := 2 ^ 28 |}.

(** A mono buffer of 24 frames at full scale, and a four-byte blob. *)
Definition full_scale_24 : AudioBuffer :=
  {| ab_sampleRate := 48000;
     ab_length := 24;
     ab_channels := [replicate 24 (Fin 1)] |}.

(** A mono clip of 28 frames: full scale both ways, an overshoot, zero
    and half scale both ways, then silence.  Its first six frames are
    written. *)
Definition scale_clip : AudioBuffer :=
  {| ab_sampleRate := 48000;
     ab_length := 28;
     ab_channels :=
       [[Fin 1; Fin (-1); Fin 1.5; Fin 0; Fin 0.5; Fin (-0.5)]
        ++ replicate 22 (Fin 0)] |}.

Definition demo_blob : list Z := [128; 255; 0; 192].

(** A blob of 27 bytes of silence. *)
Definition blob_27 : list Z := replicate 27 128.

(** What [demo_blob] decodes to. *)
Definition demo_buffer : AudioBuffer :=
  {| ab_sampleRate := 48000;
     ab_length := 4;
     ab_channels := [[Fin ((128 - 128) / 128); Fin ((255 - 128) / 128);
                      Fin ((0 - 128) / 128); Fin ((192 - 128) / 128)]] |}.

(** ** Closed form of the container

    What [audioBufferToWav] is shown to return (see
    [audioBufferToWav_closed_form]): the 44 header bytes, the frames the
    [while] loop reaches, and the rest of the zero-filled buffer. *)

Definition le16 (u : Z) : list Z :=
  [Z.land u 255; Z.land (Z.shiftr u 8) 255].

Definition le32 (u : Z) : list Z :=
  [Z.land u 255; Z.land (Z.shiftr u 8) 255;
   Z.land (Z.shiftr u 16) 255; Z.land (Z.shiftr u 24) 255].

Definition wav_header (numOfChan len rate : Z) : list Z :=
  le32 0x46464952 ++ le32 ((len - 8) mod 2 ^ 32) ++ le32 0x45564157 ++
  le32 0x20746d66 ++ le32 16 ++ le16 1 ++ le16 (numOfChan mod 2 ^ 16) ++
  le32 (rate mod 2 ^ 32) ++ le32 ((rate * 2 * numOfChan) mod 2 ^ 32) ++
  le16 ((numOfChan * 2) mod 2 ^ 16) ++ le16 16 ++ le32 0x61746164 ++
  le32 ((len - 44) mod 2 ^ 32).

(** The bytes of frame [offset]: one little-endian int16 per channel. *)
Definition frame_bytes (channels : list (list num)) (offset : Z) : list Z :=
  channels ≫= (fun ch =>
    le16 (ToUint16 (scale_sample (clamp_sample (sample_at ch offset))))).

(** The bytes of [m] frames from frame [offset] on. *)
Definition data_bytes (channels : list (list num)) (offset : Z) (m : nat)
    : list Z :=
  seqZ offset (Z.of_nat m) ≫= frame_bytes channels.

(** The number of frames the [while] loop writes: it starts at [pos = 44]
    and stops at [pos >= length - 44], that is [22 / numOfChan] frames
    short of the end (integer division). *)
Definition frames_written (b : AudioBuffer) : Z :=
  Z.max 0 (ab_length b - 22 / numberOfChannels b).

Definition wav_bytes (b : AudioBuffer) : list Z :=
  let numOfChan := numberOfChannels b in
  let len := ab_length b * numOfChan * 2 + 44 in
  let m := frames_written b in
  wav_header numOfChan len (ab_sampleRate b) ++
  data_bytes (ab_channels b) 0 (Z.to_nat m) ++
  replicate (Z.to_nat ((ab_length b - m) * numOfChan * 2)) 0.

(** The writer whose cursor stands between [pre] and [rest]. *)
Definition at_cursor (pre rest : list Z) : writer :=
  {| view := pre ++ rest; pos := Z.of_nat (length pre) |}.

(** The bytes of an ASCII text, to read the four-character tags of the
    header. *)
Definition ascii_bytes (s : string) : list Z :=
  (fun a => Z.of_N (Ascii.N_of_ascii a)) <$> list_ascii_of_string s.

(** One frame of 23 channels at half scale. *)
Definition wide_buffer : AudioBuffer :=
  {| ab_sampleRate := 48000;
     ab_length := 1;
     ab_channels := replicate 23 [Fin (1 # 2)] |}.

(** ** The profile page: recording, preview and send

    The variables of profile-script.js that its handlers read back, and
    the handlers as steps on them.  A handler runs to its end before the
    next event is taken.  Updates of the document that no handler reads
    (texts, classes, the audio elements) are left out; what leaves the page
    is an [Effect]. *)

Module ProfilePage.

(** What the page needs of the browser besides [Platform]: what a range
    control keeps of a number assigned to its value (its min, max and step
    are in the markup), [FileReader.readAsDataURL] cut after the comma, and
    the duration an [Audio] element reports. *)
Record Browser : Type := {
  platform : Platform;
  pitch_control : num -> num;
  speed_control : num -> num;
  blobToBase64 : list Z -> string;
  getAudioDuration : list Z -> num
}.

Record Page : Type := {
  audioChunks : list (list Z);
  originalAudioBlob : option (list Z);
  transformedAudioBlob : option (list Z);
  currentPreset : string;
  (** [parseFloat(pitchSlider.value)] and [parseFloat(speedSlider.value)] *)
  pitchSlider : num;
  speedSlider : num
}.

(** The body of the POST to /api/upload. *)
Record UploadRequest : Type := {
  recipient_profile : string;
  audio_data : string;
  transformation_type : string;
  pitch_shift : num;
  speed_rate : num;
  duration : num
}.

Inductive Effect : Type :=
  | alert (message : string)
  | play (audio : list Z)
  | upload (body : UploadRequest)
  | uncaught (e : exn).

Inductive Event : Type :=
  | dataavailable (chunk : list Z)
  | stop
  | presetClick (presetName : string)
  | pitchInput (value : num)
  | speedInput (value : num)
  | previewClick
  | sendClick
  | anotherClick.

(** The page as loaded, with the slider values of the markup. *)
Definition loaded (pitch0 speed0 : num) : Page :=
  {| audioChunks := [];
     originalAudioBlob := None;
     transformedAudioBlob := None;
     currentPreset := "original";
     pitchSlider := pitch0;
     speedSlider := speed0 |}.

(** [mediaRecorder.ondataavailable] *)
Definition on_dataavailable (chunk : list Z) (pg : Page) : Page :=
  {| audioChunks := audioChunks pg ++ [chunk];
     originalAudioBlob := originalAudioBlob pg;
     transformedAudioBlob := transformedAudioBlob pg;
     currentPreset := currentPreset pg;
     pitchSlider := pitchSlider pg;
     speedSlider := speedSlider pg |}.

(** [mediaRecorder.onstop]: the blob of the chunks becomes the original
    recording. *)
Definition on_stop (pg : Page) : Page :=
  let audioBlob := concat (audioChunks pg) in
  {| audioChunks := [];
     originalAudioBlob := Some audioBlob;
     transformedAudioBlob := transformedAudioBlob pg;
     currentPreset := currentPreset pg;
     pitchSlider := pitchSlider pg;
     speedSlider := speedSlider pg |}.

(** The names every object answers to besides its own keys, through
    [Object.prototype]. *)
Definition inherited_keys : list string :=
  ["constructor"; "hasOwnProperty"; "isPrototypeOf"; "propertyIsEnumerable";
   "toLocaleString"; "toString"; "valueOf"; "__proto__";
   "__defineGetter__"; "__defineSetter__"; "__lookupGetter__";
   "__lookupSetter__"]%string.

(** A preset button: [currentPreset] is set first.  For a name that
    [voicePresets] does not know, [preset] is undefined and reading
    [preset.pitch] fails; for an inherited name [preset.pitch] and
    [preset.speed] are undefined, both controls are assigned that, and
    [preset.speed.toFixed] fails. *)
Definition on_presetClick (B : Browser) (presetName : string) (pg : Page)
    : Page * list Effect :=
  match voicePresets !! presetName with
  | Some preset =>
      ({| audioChunks := audioChunks pg;
          originalAudioBlob := originalAudioBlob pg;
          transformedAudioBlob := transformedAudioBlob pg;
          currentPreset := presetName;
          pitchSlider := pitch_control B (pitch preset);
          speedSlider := speed_control B (speed preset) |}, [])
  | None =>
      if bool_decide (presetName ∈ inherited_keys)
      then
        ({| audioChunks := audioChunks pg;
            originalAudioBlob := originalAudioBlob pg;
            transformedAudioBlob := transformedAudioBlob pg;
            currentPreset := presetName;
            pitchSlider := pitch_control B NaN;
            speedSlider := speed_control B NaN |}, [uncaught TypeError])
      else
        ({| audioChunks := audioChunks pg;
            originalAudioBlob := originalAudioBlob pg;
            transformedAudioBlob := transformedAudioBlob pg;
            currentPreset := presetName;
            pitchSlider := pitchSlider pg;
            speedSlider := speedSlider pg |}, [uncaught TypeError])
  end.

(** The input events of the two sliders; the control already holds the new
    value. *)
Definition on_pitchInput (value : num) (pg : Page) : Page :=
  {| audioChunks := audioChunks pg;
     originalAudioBlob := originalAudioBlob pg;
     transformedAudioBlob := transformedAudioBlob pg;
     currentPreset := "custom";
     pitchSlider := value;
     speedSlider := speedSlider pg |}.

Definition on_speedInput (value : num) (pg : Page) : Page :=
  {| audioChunks := audioChunks pg;
     originalAudioBlob := originalAudioBlob pg;
     transformedAudioBlob := transformedAudioBlob pg;
     currentPreset := "custom";
     pitchSlider := pitchSlider pg;
     speedSlider := value |}.

(** The preview button: the transform of the original recording at the
    slider values; an exception is caught and reported. *)
Definition on_previewClick (B : Browser) (pg : Page)
    : result (Page * list Effect) :=
  match originalAudioBlob pg with
  | None => Ok (pg, [alert "Please record audio first!"])
  | Some original =>
      let pitchShift := pitchSlider pg in
      let playbackRate := speedSlider pg in
      match transformAudio (platform B) original pitchShift playbackRate with
      | Ok wav =>
          Ok ({| audioChunks := audioChunks pg;
                 originalAudioBlob := originalAudioBlob pg;
                 transformedAudioBlob := Some wav;
                 currentPreset := currentPreset pg;
                 pitchSlider := pitchSlider pg;
                 speedSlider := speedSlider pg |}, [play wav])
      | Throw _ =>
          Ok (pg, [alert "Error transforming audio. Please try again."])
      | OutOfFuel => OutOfFuel
      end
  end.

(** The send button: the transformed blob if there is one, the original
    otherwise, with the preset name and the slider values of the moment. *)
Definition on_sendClick (B : Browser) (profileLink : string) (pg : Page)
    : list Effect :=
  match originalAudioBlob pg with
  | None => [alert "Please record a voice message first!"]
  | Some original =>
      let audioToSend := default original (transformedAudioBlob pg) in
      [upload {| recipient_profile := profileLink;
                 audio_data := blobToBase64 B audioToSend;
                 transformation_type := currentPreset pg;
                 pitch_shift := pitchSlider pg;
                 speed_rate := speedSlider pg;
                 duration := getAudioDuration B audioToSend |}]
  end.

Section Run.

Variable B : Browser.
Variable profileLink : string.
(** the slider values of the markup, for a reload *)
Variables pitch0 speed0 : num.

Definition step (ev : Event) (pg : Page) : result (Page * list Effect) :=
  match ev with
  | dataavailable chunk => Ok (on_dataavailable chunk pg, [])
  | stop => Ok (on_stop pg, [])
  | presetClick presetName => Ok (on_presetClick B presetName pg)
  | pitchInput value => Ok (on_pitchInput value pg, [])
  | speedInput value => Ok (on_speedInput value pg, [])
  | previewClick => on_previewClick B pg
  | sendClick => Ok (pg, on_sendClick B profileLink pg)
  | anotherClick => Ok (loaded pitch0 speed0, [])
  end.

(** The page after a sequence of events. *)
Fixpoint run (evs : list Event) (pg : Page) : result Page :=
  match evs with
  | [] => Ok pg
  | ev :: evs' =>
      match step ev pg with
      | Ok (pg', _) => run evs' pg'
      | Throw e => Throw e
      | OutOfFuel => OutOfFuel
      end
  end.

End Run.

End ProfilePage.

(** A browser for the small platform: the controls keep what they are
    given, a blob is shown as the text of its bytes, every clip lasts one
    second. *)
Definition demo_browser : ProfilePage.Browser :=
  {| ProfilePage.platform := demo_platform;
     ProfilePage.pitch_control := fun v => v;
     ProfilePage.speed_control := fun v => v;
     ProfilePage.blobToBase64 := fun blob =>
       string_of_list_ascii
         ((fun z => Ascii.ascii_of_N (Z.to_N z)) <$> blob);
     ProfilePage.getAudioDuration := fun _ => Fin 1 |}.

(** A page with a recording, the sliders at four semitones and 1.3. *)
Definition demo_page : ProfilePage.Page :=
  {| ProfilePage.audioChunks := [];
     ProfilePage.originalAudioBlob := Some demo_blob;
     ProfilePage.transformedAudioBlob := None;
     ProfilePage.currentPreset := "custom";
     ProfilePage.pitchSlider := Fin 4;
     ProfilePage.speedSlider := Fin (13 # 10) |}.

(** ** Accounts kept in localStorage

    The login and signup handlers that keep the accounts in the browser
    (the keys users and currentUser of localStorage), with
    [checkAuthStatus] and [handleLogout] of the site script.  The two keys
    are held as the values that [JSON.parse] gives back; a text field is
    the sequence of its code units, one character each. *)

Module LocalAuth.

Record User : Type := {
  fullname : string;
  email : string;
  password : string;
  createdAt : string
}.

Record Storage : Type := {
  users : option (list User);
  currentUser : option User
}.

Inductive Effect : Type :=
  | showMessage (message type : string)
  | redirect (href : string) (delay : Z)
  | alert (message : string)
  | authLink (textContent : string).

(** [!s] for a string: only the empty string is falsy. *)
Definition empty (s : string) : bool := String.eqb s "".

(** [JSON.parse(localStorage.getItem('users') || '[]')] *)
Definition stored_users (st : Storage) : list User :=
  default [] (users st).

Definition handleLogin (email_value password_value : string) (st : Storage)
    : Storage * list Effect :=
  if empty email_value || empty password_value
  then (st, [showMessage "Please fill in all fields" "error"])
  else
    let users := stored_users st in
    match find (fun u => String.eqb (email u) email_value
                         && String.eqb (password u) password_value) users with
    | Some user =>
        ({| users := LocalAuth.users st; currentUser := Some user |},
         [showMessage "Login successful! Redirecting..." "success";
          redirect "index.html" 1000])
    | None => (st, [showMessage "Invalid email or password" "error"])
    end.

Record SignupForm : Type := {
  fullname_value : string;
  email_value : string;
  password_value : string;
  confirmPassword_value : string
}.

(** [now] is [new Date().toISOString()]. *)
Definition handleSignup (form : SignupForm) (now : string) (st : Storage)
    : Storage * list Effect :=
  if empty (fullname_value form) || empty (email_value form)
     || empty (password_value form) || empty (confirmPassword_value form)
  then (st, [showMessage "Please fill in all fields" "error"])
  else if negb (String.eqb (password_value form) (confirmPassword_value form))
  then (st, [showMessage "Passwords do not match" "error"])
  else if (String.length (password_value form) <? 6)%nat
  then (st, [showMessage "Password must be at least 6 characters" "error"])
  else
    let users := stored_users st in
    if existsb (fun u => String.eqb (email u) (email_value form)) users
    then (st, [showMessage "Email already registered" "error"])
    else
      let newUser := {| fullname := fullname_value form;
                        email := email_value form;
                        password := password_value form;
                        createdAt := now |} in
      ({| users := Some (users ++ [newUser]);
          currentUser := currentUser st |},
       [showMessage "Account created successfully! Redirecting to login..."
          "success";
        redirect "login.html" 1500]).

Definition checkAuthStatus (st : Storage) : list Effect :=
  match currentUser st with
  | Some _ => [authLink "Logout"]
  | None => [authLink "Login"]
  end.

Definition handleLogout (st : Storage) : Storage * list Effect :=
  let st' := {| users := users st; currentUser := None |} in
  (st', alert "You have been logged out successfully!" :: checkAuthStatus st').

Inductive Action : Type :=
  | login (email_value password_value : string)
  | signup (form : SignupForm) (now : string)
  | logout.

Definition act (a : Action) (st : Storage) : Storage :=
  match a with
  | login e p => (handleLogin e p st).1
  | signup form now => (handleSignup form now st).1
  | logout => (handleLogout st).1
  end.

(** The storage after a sequence of actions. *)
Definition run (actions : list Action) (st : Storage) : Storage :=
  foldl (fun st a => act a st) st actions.

(** A browser that has not seen the site. *)
Definition fresh : Storage := {| users := None; currentUser := None |}.

(** A storage in order: distinct emails, no empty name or email, no
    password under six characters, the current user among the accounts. *)
Definition consistent (st : Storage) : Prop :=
  NoDup (email <$> stored_users st) /\
  Forall (fun u => fullname u <> ""%string /\ email u <> ""%string /\
                   (6 <= String.length (password u))%nat)
         (stored_users st) /\
  (forall u, currentUser st = Some u -> u ∈ stored_users st).

End LocalAuth.

(** A filled signup form. *)
Definition demo_signup : LocalAuth.SignupForm :=
  {| LocalAuth.fullname_value := "Ana";
     LocalAuth.email_value := "ana@example.org";
     LocalAuth.password_value := "secret1";
     LocalAuth.confirmPassword_value := "secret1" |}.

(** ** The inbox page: calls to the API

    [apiCall], [checkAuth] and [handleLogout] of inbox-script.js.  The
    server is a function from the request to the status and the parsed body
    of its answer. *)

Module Inbox.

Record Options : Type := {
  method : option string;
  headers : option (gmap string string);
  body : option string
}.

(** The second argument of [fetch]. *)
Record Request : Type := {
  req_url : string;
  req_method : option string;
  req_headers : gmap string string;
  req_body : option string
}.

Record Response (J : Type) : Type := { status : Z; json : J }.
Arguments status {J} r.
Arguments json {J} r.

Inductive Effect : Type :=
  | fetched (r : Request)
  | redirect (href : string).

(** [localStorage.getItem('authToken')] is the whole storage here. *)
Definition Storage : Type := option string.

Definition getAuthToken (st : Storage) : option string := st.

(** A token that counts as present: neither null nor empty. *)
Definition truthy (token : option string) : bool :=
  match token with
  | Some t => negb (String.eqb t "")
  | None => false
  end.

Definition checkAuth (st : Storage) : bool * list Effect :=
  let token := getAuthToken st in
  if truthy token then (true, []) else (false, [redirect "/login.html"]).

(** [options = {}] *)
Definition no_options : Options :=
  {| method := None; headers := None; body := None |}.

(** The request [apiCall] sends: the headers of the caller over the default
    content type, then the stored token. *)
Definition apiCall_request (endpoint : string) (options : Options)
    (st : Storage) : Request :=
  let token := getAuthToken st in
  let headers : gmap string string :=
    default ∅ (headers options)
    ∪ {[ "Content-Type"%string := "application/json"%string ]} in
  let headers :=
    if truthy token
    then <[ "Authorization"%string :=
              ("Bearer " ++ default "" token)%string ]> headers
    else headers in
  {| req_url := endpoint;
     req_method := method options;
     req_headers := headers;
     req_body := body options |}.

Definition apiCall {J : Type} (fetch : Request -> Response J)
    (endpoint : string) (options : Options) (st : Storage)
    : Storage * list Effect * option J :=
  let request := apiCall_request endpoint options st in
  let response := fetch request in
  if status response =? 401
  then (None, [fetched request; redirect "/login.html"], None)
  else (st, [fetched request], Some (json response)).

(** The call to /api/logout is not awaited: its request leaves first, then
    the token is removed, whatever the answer. *)
Definition handleLogout (st : Storage) : Storage * list Effect :=
  let request :=
    apiCall_request "/api/logout"
      {| method := Some "POST"%string; headers := None; body := None |} st in
  (None, [fetched request; redirect "/login.html"]).

(** The storage after a sequence of awaited calls. *)
Definition run {J : Type} (fetch : Request -> Response J)
    (calls : list (string * Options)) (st : Storage) : Storage :=
  foldl (fun st call => (apiCall fetch call.1 call.2 st).1.1) st calls.

End Inbox.

(** * Properties *)

(** ** Quantization *)

Section Quantization.

Lemma Qtrunc_bounds (a b : Z) (q : Q) :
  a <= 0 <= b -> (inject_Z a <= q <= inject_Z b)%Q -> a <= Qtrunc q <= b.
Proof.
  intros [Ha Hb] [Hl Hu]. unfold Qtrunc.
  destruct q as [n d]. unfold Qle in Hl, Hu. simpl in *.
  rewrite Z.mul_1_r in Hl, Hu.
  destruct (Z.le_gt_cases 0 n) as [Hn | Hn].
  - rewrite Z.quot_div_nonneg by lia. split.
    + pose proof (Z.div_pos n (Z.pos d)). lia.
    + apply Z.div_le_upper_bound; lia.
  - replace n with (- (- n)) by lia. rewrite Z.quot_opp_l by lia.
    rewrite Z.quot_div_nonneg by lia. split.
    + assert (- n / Z.pos d <= - a); [| lia].
      apply Z.div_le_upper_bound; lia.
    + pose proof (Z.div_pos (- n) (Z.pos d)). lia.
Qed.

Lemma Qtrunc_inject_Z (z : Z) : Qtrunc (inject_Z z) = z.
Proof. unfold Qtrunc. simpl. apply Z.quot_1_r. Qed.

(** A clamped sample is NaN (only for a NaN input) or lies in [-1, 1]. *)
Lemma clamp_sample_range (x : num) :
  (x = NaN /\ clamp_sample x = NaN) \/
  exists q, clamp_sample x = Fin q /\ (-1 <= q <= 1)%Q.
Proof.
  destruct x as [ | | | q]; [left; split; reflexivity | right ..].
  - exists 1%Q. split; [reflexivity | lra].
  - exists (-1)%Q. split; [reflexivity | lra].
  - unfold clamp_sample, Math_min, Math_max, num_of_Z, num_ltb. simpl.
    destruct (Qlt_le_dec q (inject_Z 1)) as [H1 | H1]; simpl.
    + destruct (Qlt_le_dec (inject_Z (-1)) q) as [H2 | H2]; simpl.
      * exists q. split; [reflexivity | ]. unfold inject_Z in *; lra.
      * exists (inject_Z (-1)). split; [reflexivity | ].
        unfold inject_Z; lra.
    + destruct (Qlt_le_dec (inject_Z (-1)) (inject_Z 1)) as [H2 | H2].
      * exists (inject_Z 1). split; [reflexivity | ]. unfold inject_Z; lra.
      * unfold inject_Z in H2; lra.
Qed.

(** What [scale_sample] then [ToIntegerOrZero] give on a value of
    [-1, 1]. *)
Lemma scaled_range (q : Q) :
  (-1 <= q <= 1)%Q ->
  -32768 <= ToIntegerOrZero (scale_sample (Fin q)) <= 32767.
Proof.
  intros Hq. unfold scale_sample, num_ltb, num_of_Z.
  destruct (Qlt_le_dec q (inject_Z 0)) as [H0 | H0]; simpl.
  - assert (-32768 <= Qtrunc (q * inject_Z 32768) <= 0); [| lia].
    apply Qtrunc_bounds; [lia |]. unfold inject_Z in *. split; nra.
  - assert (0 <= Qtrunc (q * inject_Z 32767) <= 32767); [| lia].
    apply Qtrunc_bounds; [lia |]. unfold inject_Z in *. split; nra.
Qed.

Lemma ToInt16_small (x : num) :
  -32768 <= ToIntegerOrZero x <= 32767 -> ToInt16 x = ToIntegerOrZero x.
Proof.
  intros H. unfold ToInt16, ToUint16.
  destruct (Z.le_gt_cases 0 (ToIntegerOrZero x)) as [Hs | Hs].
  - rewrite Z.mod_small by lia.
    destruct (Z.leb_spec 32768 (ToIntegerOrZero x)); lia.
  - replace (ToIntegerOrZero x mod 65536)
      with (ToIntegerOrZero x + 65536).
    + destruct (Z.leb_spec 32768 (ToIntegerOrZero x + 65536)); lia.
    + apply Z.mod_unique with (q := -1); lia.
Qed.

Lemma quantize_no_wrap (x : num) :
  quantize x = ToIntegerOrZero (scale_sample (clamp_sample x)) /\
  -32768 <= quantize x <= 32767.
Proof.
  unfold quantize.
  destruct (clamp_sample_range x) as [[-> ->] | (q & -> & Hq)].
  - split; [reflexivity |].
    assert (ToInt16 (scale_sample NaN) = 0) as -> by reflexivity. lia.
  - pose proof (scaled_range q Hq) as Hr.
    rewrite ToInt16_small by exact Hr. split; [reflexivity | exact Hr].
Qed.

(** At 1 and above (also +Infinity) the clamp gives 1, at -1 and below
    (also -Infinity) it gives -1. *)
Lemma clamp_sample_high (x : num) :
  x = PInf \/ (exists q, x = Fin q /\ (1 <= q)%Q) -> clamp_sample x = Fin 1.
Proof.
  intros [-> | (q & -> & Hq)]; [reflexivity |].
  unfold clamp_sample, Math_min, Math_max, num_of_Z, num_ltb.
  destruct (Qlt_le_dec q (inject_Z 1)) as [H1 | H1];
    [unfold inject_Z in H1; lra |].
  destruct (Qlt_le_dec (inject_Z (-1)) (inject_Z 1)) as [H2 | H2];
    [reflexivity | unfold inject_Z in H2; lra].
Qed.

Lemma clamp_sample_low (x : num) :
  x = NInf \/ (exists q, x = Fin q /\ (q <= -1)%Q) ->
  clamp_sample x = Fin (-1).
Proof.
  intros [-> | (q & -> & Hq)]; [reflexivity |].
  unfold clamp_sample, Math_min, Math_max, num_of_Z, num_ltb.
  destruct (Qlt_le_dec q (inject_Z 1)) as [H1 | H1];
    [| unfold inject_Z in H1; lra].
  destruct (Qlt_le_dec (inject_Z (-1)) q) as [H2 | H2];
    [unfold inject_Z in H2; lra | reflexivity].
Qed.

Lemma Qtrunc_nonneg (q : Q) : (0 <= q)%Q -> Qtrunc q = Qfloor q.
Proof.
  destruct q as [n d]. unfold Qle, Qtrunc, Qfloor. simpl. intros H.
  apply Z.quot_div_nonneg; lia.
Qed.

Lemma Qtrunc_nonpos (q : Q) : (q <= 0)%Q -> Qtrunc q = Qceiling q.
Proof.
  destruct q as [n d]. unfold Qle, Qtrunc, Qceiling, Qfloor. simpl.
  intros H. rewrite Z.mul_1_r in H.
  replace n with (- (- n)) at 1 by lia.
  rewrite Z.quot_opp_l by lia. rewrite Z.quot_div_nonneg by lia.
  reflexivity.
Qed.

Lemma Qtrunc_mono (a b : Q) : (a <= b)%Q -> Qtrunc a <= Qtrunc b.
Proof.
  intros Hab.
  destruct (Qlt_le_dec a 0) as [Ha | Ha], (Qlt_le_dec b 0) as [Hb | Hb].
  - rewrite !Qtrunc_nonpos by lra. now apply Qceiling_resp_le.
  - rewrite (Qtrunc_nonpos a), (Qtrunc_nonneg b) by lra.
    assert (Qceiling a <= Qceiling 0) by (apply Qceiling_resp_le; lra).
    assert (Qfloor 0 <= Qfloor b) by (now apply Qfloor_resp_le).
    change (Qceiling 0) with 0 in *. change (Qfloor 0) with 0 in *. lia.
  - lra.
  - rewrite !Qtrunc_nonneg by lra. now apply Qfloor_resp_le.
Qed.

Lemma Qtrunc_Qeq (a b : Q) : (a == b)%Q -> Qtrunc a = Qtrunc b.
Proof.
  intros H. apply Z.le_antisymm; apply Qtrunc_mono; lra.
Qed.

Lemma clamp_sample_Fin (q : Q) :
  exists c : Q,
    clamp_sample (Fin q) = Fin c /\
    (c == Qmax (-1) (Qmin 1 q))%Q.
Proof.
  unfold clamp_sample, Math_min, Math_max, num_of_Z, num_ltb.
  destruct (Qlt_le_dec q (inject_Z 1)) as [H1 | H1].
  - destruct (Qlt_le_dec (inject_Z (-1)) q) as [H2 | H2].
    + exists q. split; [reflexivity |]. unfold inject_Z in *.
      rewrite (proj2 (Q.min_r_iff 1 q)) by lra.
      rewrite (proj2 (Q.max_r_iff (-1) q)) by lra. reflexivity.
    + exists (inject_Z (-1)). split; [reflexivity |]. unfold inject_Z in *.
      rewrite (proj2 (Q.min_r_iff 1 q)) by lra.
      rewrite (proj2 (Q.max_l_iff (-1) q)) by lra. reflexivity.
  - destruct (Qlt_le_dec (inject_Z (-1)) (inject_Z 1)) as [H2 | H2];
      [| unfold inject_Z in H2; lra].
    exists (inject_Z 1). split; [reflexivity |]. unfold inject_Z in *.
    rewrite (proj2 (Q.min_l_iff 1 q)) by lra.
    rewrite (proj2 (Q.max_r_iff (-1) 1)) by lra. reflexivity.
Qed.

(** The code of a finite sample: the sample is clamped, scaled by 32768
    below zero and by 32767 from zero on, and truncated. *)
Lemma quantize_Fin (q : Q) :
  quantize (Fin q) =
  let s := Qmax (-1) (Qmin 1 q) in
  if Qlt_le_dec s 0 then Qtrunc (s * 32768) else Qtrunc (s * 32767).
Proof.
  destruct (quantize_no_wrap (Fin q)) as [-> _].
  destruct (clamp_sample_Fin q) as (c & -> & Hc). cbv zeta.
  unfold scale_sample, num_ltb, num_of_Z.
  change (inject_Z 0) with 0%Q.
  destruct (Qlt_le_dec c 0) as [H1 | H1],
           (Qlt_le_dec (Qmax (-1) (Qmin 1 q)) 0) as [H2 | H2];
    cbn [num_mul ToIntegerOrZero]; try lra;
    apply Qtrunc_Qeq; now rewrite Hc.
Qed.

Lemma Qclamp_Qeq (q q' : Q) :
  (q == q')%Q -> (Qmax (-1) (Qmin 1 q) == Qmax (-1) (Qmin 1 q'))%Q.
Proof.
  intros H. apply Qle_antisym;
    apply Q.max_le_compat_l, Q.min_le_compat_l; lra.
Qed.

Lemma quantize_Qeq (q q' : Q) :
  (q == q')%Q -> quantize (Fin q) = quantize (Fin q').
Proof.
  intros H. rewrite !quantize_Fin. cbv zeta.
  pose proof (Qclamp_Qeq q q' H) as Hs.
  destruct (Qlt_le_dec (Qmax (-1) (Qmin 1 q)) 0),
           (Qlt_le_dec (Qmax (-1) (Qmin 1 q')) 0);
    try lra; apply Qtrunc_Qeq; now rewrite Hs.
Qed.

(** At 1 and above the code is 32767, at -1 and below it is -32768. *)
Lemma quantize_high (x : num) :
  x = PInf \/ (exists q, x = Fin q /\ (1 <= q)%Q) -> quantize x = 32767.
Proof.
  intros H. unfold quantize. now rewrite (clamp_sample_high x H).
Qed.

Lemma quantize_low (x : num) :
  x = NInf \/ (exists q, x = Fin q /\ (q <= -1)%Q) -> quantize x = -32768.
Proof.
  intros H. unfold quantize. now rewrite (clamp_sample_low x H).
Qed.

End Quantization.

(** ** The encoder *)

Section Encoder.

Lemma setUint8_app (pre rest : list Z) (k : nat) (v : Z) :
  setUint8 (pre ++ rest) (Z.of_nat (length pre) + Z.of_nat k) v =
  pre ++ <[k := v]> rest.
Proof.
  unfold setUint8.
  replace (Z.to_nat (Z.of_nat (length pre) + Z.of_nat k))
    with (length pre + k)%nat by lia.
  apply insert_app_r.
Qed.

Lemma put16le_splice (pre rest : list Z) (u : Z) :
  (2 <= length rest)%nat ->
  put16le (pre ++ rest) (Z.of_nat (length pre)) u =
  Ok (pre ++ le16 u ++ drop 2 rest).
Proof.
  intros Hlen. unfold put16le, byteLength. rewrite length_app.
  destruct (Z.ltb_spec (Z.of_nat (length pre)) 0); [lia |].
  destruct (Z.ltb_spec (Z.of_nat (length pre + length rest))
                       (Z.of_nat (length pre) + 2)); [lia |].
  simpl. f_equal.
  destruct rest as [| a [| b rest]]; simpl in Hlen; try lia.
  pose proof (setUint8_app pre (a :: b :: rest) 0) as Hz.
  rewrite Z.add_0_r in Hz. rewrite Hz.
  change 1 with (Z.of_nat 1). rewrite setUint8_app. reflexivity.
Qed.

Lemma put32le_splice (pre rest : list Z) (u : Z) :
  (4 <= length rest)%nat ->
  put32le (pre ++ rest) (Z.of_nat (length pre)) u =
  Ok (pre ++ le32 u ++ drop 4 rest).
Proof.
  intros Hlen. unfold put32le, byteLength. rewrite length_app.
  destruct (Z.ltb_spec (Z.of_nat (length pre)) 0); [lia |].
  destruct (Z.ltb_spec (Z.of_nat (length pre + length rest))
                       (Z.of_nat (length pre) + 4)); [lia |].
  simpl. f_equal.
  destruct rest as [| a [| b [| c [| d rest]]]]; simpl in Hlen; try lia.
  pose proof (setUint8_app pre (a :: b :: c :: d :: rest) 0) as Hz.
  rewrite Z.add_0_r in Hz. rewrite Hz.
  change 1 with (Z.of_nat 1). rewrite setUint8_app.
  change 2 with (Z.of_nat 2). rewrite setUint8_app.
  change 3 with (Z.of_nat 3). rewrite setUint8_app. reflexivity.
Qed.

Lemma at_cursor_app (pre mid rest : list Z) (k : Z) :
  k = Z.of_nat (length mid) ->
  {| view := pre ++ mid ++ rest; pos := Z.of_nat (length pre) + k |} =
  at_cursor (pre ++ mid) rest.
Proof.
  intros ->. unfold at_cursor. rewrite length_app, <- app_assoc.
  f_equal. lia.
Qed.

Lemma setUint16_splice (pre rest : list Z) (data : num) :
  (2 <= length rest)%nat ->
  setUint16 data (at_cursor pre rest) =
  Ok (at_cursor (pre ++ le16 (ToUint16 data)) (drop 2 rest)).
Proof.
  intros Hlen. unfold setUint16, DataView_setUint16.
  change (view (at_cursor pre rest)) with (pre ++ rest).
  change (pos (at_cursor pre rest)) with (Z.of_nat (length pre)).
  rewrite put16le_splice by exact Hlen.
  unfold mbind, result_bind, mret, result_ret. f_equal.
  now apply at_cursor_app.
Qed.

Lemma setUint32_splice (pre rest : list Z) (data : num) :
  (4 <= length rest)%nat ->
  setUint32 data (at_cursor pre rest) =
  Ok (at_cursor (pre ++ le32 (ToUint32 data)) (drop 4 rest)).
Proof.
  intros Hlen. unfold setUint32, DataView_setUint32.
  change (view (at_cursor pre rest)) with (pre ++ rest).
  change (pos (at_cursor pre rest)) with (Z.of_nat (length pre)).
  rewrite put32le_splice by exact Hlen.
  unfold mbind, result_bind, mret, result_ret. f_equal.
  now apply at_cursor_app.
Qed.

Lemma ToUint32_of_Z (z : Z) : ToUint32 (num_of_Z z) = z mod 2 ^ 32.
Proof. unfold ToUint32, num_of_Z. simpl. now rewrite Qtrunc_inject_Z. Qed.

Lemma ToUint16_of_Z (z : Z) : ToUint16 (num_of_Z z) = z mod 2 ^ 16.
Proof. unfold ToUint16, num_of_Z. simpl. now rewrite Qtrunc_inject_Z. Qed.

Lemma bind_Ok {A B : Type} (a : A) (k : A -> result B) :
  (Ok a ≫= k) = k a.
Proof. reflexivity. Qed.

Lemma write_header_splice (numOfChan len rate : Z) (rest : list Z) :
  (44 <= length rest)%nat ->
  write_header numOfChan len rate (at_cursor [] rest) =
  Ok (at_cursor (wav_header numOfChan len rate) (drop 44 rest)).
Proof.
  intros Hlen. unfold write_header.
  repeat (first [rewrite setUint32_splice by (rewrite ?length_drop; lia)
                | rewrite setUint16_splice by (rewrite ?length_drop; lia)];
          rewrite bind_Ok; rewrite ?drop_drop).
  rewrite setUint32_splice by (rewrite ?length_drop; lia).
  rewrite drop_drop. rewrite !ToUint32_of_Z, !ToUint16_of_Z.
  match goal with
  | |- context [pos (at_cursor ?l ?r)] =>
      change (pos (at_cursor l r)) with 40
  end.
  replace (len - 40 - 4) with (len - 44) by lia.
  reflexivity.
Qed.

Lemma push_channels_all (b : AudioBuffer) (n i : nat)
    (acc : list (list num)) :
  (i + n = length (ab_channels b))%nat ->
  push_channels b n i acc = Ok (acc ++ drop i (ab_channels b)).
Proof.
  revert i acc. induction n as [| n IH]; intros i acc Hlen; simpl.
  - rewrite drop_ge by lia. now rewrite app_nil_r.
  - unfold getChannelData.
    destruct (lookup_lt_is_Some_2 (ab_channels b) i) as [ch Hch]; [lia |].
    rewrite Hch, bind_Ok, IH by lia.
    rewrite (drop_S _ _ _ Hch), <- app_assoc. reflexivity.
Qed.

Lemma length_le16 (u : Z) : length (le16 u) = 2%nat.
Proof. reflexivity. Qed.

Lemma length_frame_bytes (channels : list (list num)) (offset : Z) :
  length (frame_bytes channels offset) = (2 * length channels)%nat.
Proof.
  unfold frame_bytes. induction channels as [| ch l IH]; [reflexivity |].
  rewrite bind_cons, length_app, IH, length_le16. simpl. lia.
Qed.

Lemma data_bytes_S (channels : list (list num)) (offset : Z) (m : nat) :
  data_bytes channels offset (S m) =
  frame_bytes channels offset ++ data_bytes channels (offset + 1) m.
Proof.
  unfold data_bytes. rewrite seqZ_cons by lia. rewrite bind_cons.
  do 3 f_equal; lia.
Qed.

Lemma length_data_bytes (channels : list (list num)) (offset : Z) (m : nat) :
  length (data_bytes channels offset m) = (m * (2 * length channels))%nat.
Proof.
  revert offset. induction m as [| m IH]; intros offset; [reflexivity |].
  rewrite data_bytes_S, length_app, IH, length_frame_bytes. lia.
Qed.

(** The inner loop writes the bytes of the channels it visits. *)
Lemma write_frame_splice (channels : list (list num)) (offset : Z)
    (n i : nat) (pre rest : list Z) :
  (i + n <= length channels)%nat ->
  (2 * n <= length rest)%nat ->
  write_frame channels offset n i (at_cursor pre rest) =
  Ok (at_cursor (pre ++ frame_bytes (take n (drop i channels)) offset)
                (drop (2 * n) rest)).
Proof.
  revert i pre rest.
  induction n as [| n IH]; intros i pre rest Hi Hrest.
  - simpl. now rewrite app_nil_r.
  - cbn [write_frame].
    destruct (lookup_lt_is_Some_2 channels i) as [ch Hch]; [lia |].
    rewrite Hch. unfold DataView_setInt16.
    change (view (at_cursor pre rest)) with (pre ++ rest).
    change (pos (at_cursor pre rest)) with (Z.of_nat (length pre)).
    rewrite put16le_splice by lia. rewrite bind_Ok.
    rewrite at_cursor_app by reflexivity.
    rewrite IH by (rewrite ?length_drop; lia).
    rewrite (drop_S _ _ _ Hch). cbn [take]. unfold frame_bytes at 2.
    rewrite bind_cons, drop_drop, <- app_assoc.
    do 2 f_equal. f_equal. lia.
Qed.

(** The outer loop: [m] is the number of frames still to be written when
    the cursor is at the end of [pre]. *)
Lemma write_frames_splice (channels : list (list num)) (len : Z)
    (m fuel : nat) (offset : Z) (pre rest : list Z) :
  let C := Z.of_nat (length channels) in
  let P := Z.of_nat (length pre) in
  (m <= fuel)%nat ->
  len - 44 <= P + 2 * C * Z.of_nat m ->
  (m = 0%nat \/ P + 2 * C * (Z.of_nat m - 1) < len - 44) ->
  (m * (2 * length channels) <= length rest)%nat ->
  write_frames fuel channels C len offset (at_cursor pre rest) =
  Ok (at_cursor (pre ++ data_bytes channels offset m)
                (drop (m * (2 * length channels)) rest)).
Proof.
  intros C P. subst P. revert fuel offset pre rest.
  induction m as [| m IH]; intros fuel offset pre rest Hfuel Hstop Hgo Hrest.
  - destruct fuel; cbn [write_frames];
      change (pos (at_cursor pre rest)) with (Z.of_nat (length pre));
      (destruct (Z.ltb_spec (Z.of_nat (length pre)) (len - 44)); [lia |]);
      unfold data_bytes; simpl; now rewrite app_nil_r.
  - destruct Hgo as [Hgo | Hgo]; [discriminate |].
    destruct fuel as [| fuel]; [lia |]. cbn [write_frames].
    change (pos (at_cursor pre rest)) with (Z.of_nat (length pre)).
    destruct (Z.ltb_spec (Z.of_nat (length pre)) (len - 44)); [| nia].
    subst C. rewrite Nat2Z.id.
    rewrite write_frame_splice by lia. rewrite bind_Ok.
    rewrite drop_0, firstn_all.
    rewrite IH.
    + rewrite data_bytes_S, drop_drop, <- app_assoc.
      reflexivity.
    + lia.
    + rewrite length_app, length_frame_bytes. nia.
    + rewrite length_app, length_frame_bytes.
      destruct m as [| m]; [left; reflexivity | right; nia].
    + rewrite length_drop. lia.
Qed.

Lemma frames_written_bounds (N C : Z) :
  0 <= N -> 0 < C ->
  let m := Z.max 0 (N - 22 / C) in
  0 <= m <= N /\
  2 * N * C <= 44 + 2 * C * m /\
  (m = 0 \/ 44 + 2 * C * (m - 1) < 2 * N * C).
Proof.
  intros HN HC m. subst m.
  pose proof (Z.div_mod 22 C ltac:(lia)) as Hdm.
  pose proof (Z.mod_pos_bound 22 C HC) as Hr.
  pose proof (Z.div_pos 22 C ltac:(lia) HC) as Hq.
  destruct (Z.max_spec 0 (N - 22 / C)) as [[Hlt ->] | [Hle ->]].
  - split; [lia |]. split; [nia |]. right; nia.
  - split; [lia |]. split; [nia |]. now left.
Qed.

(** The container that [audioBufferToWav] returns, byte for byte: the
    call raises nothing and does not run out of fuel. *)
Theorem audioBufferToWav_closed_form (b : AudioBuffer) :
  0 <= ab_length b -> 0 < numberOfChannels b ->
  audioBufferToWav b = Ok (wav_bytes b).
Proof.
  intros HN HC. unfold audioBufferToWav, wav_bytes, new_ArrayBuffer.
  set (C := numberOfChannels b) in *.
  set (N := ab_length b) in *.
  set (len := N * C * 2 + 44).
  assert (Hlen : 44 <= len) by (subst len; nia).
  destruct (Z.ltb_spec len 0); [lia |]. rewrite bind_Ok.
  change {| view := replicate (Z.to_nat len) 0; pos := 0 |}
    with (at_cursor [] (replicate (Z.to_nat len) 0)).
  rewrite write_header_splice by (rewrite length_replicate; lia).
  rewrite bind_Ok.
  unfold C at 3, numberOfChannels. rewrite Nat2Z.id.
  rewrite push_channels_all by lia. rewrite bind_Ok, drop_0, app_nil_l.
  destruct (frames_written_bounds N C HN HC) as (Hm & Hstop & Hgo).
  unfold frames_written. fold N C.
  set (m := Z.max 0 (N - 22 / C)) in *.
  assert (HlenH : length (wav_header C len (ab_sampleRate b)) = 44%nat)
    by reflexivity.
  unfold C at 3, numberOfChannels.
  rewrite (write_frames_splice (ab_channels b) len (Z.to_nat m)).
  - rewrite bind_Ok. unfold mret, result_ret, at_cursor. cbn [view].
    rewrite <- app_assoc, !drop_replicate.
    fold (numberOfChannels b). fold C. do 4 f_equal.
    assert (E : (Z.to_nat m * (2 * length (ab_channels b)))%nat =
                Z.to_nat (m * (2 * C))).
    { rewrite Z2Nat.inj_mul by lia. f_equal.
      unfold C, numberOfChannels. lia. }
    rewrite E. assert (0 <= m * C <= N * C) by nia. subst len. lia.
  - subst len. nia.
  - rewrite HlenH. fold (numberOfChannels b). fold C. subst len.
    rewrite Z2Nat.id by lia. lia.
  - rewrite HlenH. fold (numberOfChannels b). fold C. subst len.
    rewrite Z2Nat.id by lia.
    destruct Hgo as [-> | Hgo]; [left; reflexivity | right; lia].
  - rewrite length_drop, length_replicate. subst len.
    unfold C, numberOfChannels in *. nia.
Qed.

(** *** Reading little-endian fields back *)

Lemma testbit_byte (u k n : Z) :
  0 <= k -> 0 <= n ->
  Z.testbit (Z.shiftl (Z.land (Z.shiftr u k) 255) k) n =
  Z.testbit u n && (k <=? n) && (n <? k + 8).
Proof.
  intros Hk Hn. rewrite Z.shiftl_spec by lia.
  destruct (Z.leb_spec k n) as [Hkn | Hkn].
  - rewrite Z.land_spec, Z.shiftr_spec by lia.
    change 255 with (Z.ones 8). rewrite Z.testbit_ones_nonneg by lia.
    replace (n - k + k) with n by lia.
    destruct (Z.ltb_spec (n - k) 8), (Z.ltb_spec n (k + 8)); try lia;
      now rewrite ?andb_true_r, ?andb_false_r.
  - rewrite Z.testbit_neg_r by lia. now rewrite andb_false_r.
Qed.

Lemma testbit_high (u w n : Z) :
  0 <= u < 2 ^ w -> 0 <= w <= n -> Z.testbit u n = false.
Proof.
  intros Hu Hn. rewrite <- (Z.mod_small u (2 ^ w)) by lia.
  apply Z.mod_pow2_bits_high. lia.
Qed.

Lemma le16_decode (u : Z) :
  0 <= u < 2 ^ 16 ->
  Z.lor (Z.land u 255) (Z.shiftl (Z.land (Z.shiftr u 8) 255) 8) = u.
Proof.
  intros Hu. apply Z.bits_inj'. intros n Hn.
  pose proof (testbit_byte u 0 n ltac:(lia) Hn) as H0.
  rewrite Z.shiftl_0_r, Z.shiftr_0_r in H0.
  rewrite Z.lor_spec, H0, testbit_byte by lia.
  destruct (Z.ltb_spec n 16) as [H16 | H16].
  - destruct (Z.leb_spec 0 n), (Z.ltb_spec n (0 + 8)), (Z.leb_spec 8 n),
      (Z.ltb_spec n (8 + 8)); try lia; destruct (Z.testbit u n); reflexivity.
  - rewrite (testbit_high u 16 n) by lia. reflexivity.
Qed.

Lemma le32_decode (u : Z) :
  0 <= u < 2 ^ 32 ->
  Z.lor (Z.lor (Z.land u 255) (Z.shiftl (Z.land (Z.shiftr u 8) 255) 8))
        (Z.lor (Z.shiftl (Z.land (Z.shiftr u 16) 255) 16)
               (Z.shiftl (Z.land (Z.shiftr u 24) 255) 24)) = u.
Proof.
  intros Hu. apply Z.bits_inj'. intros n Hn.
  pose proof (testbit_byte u 0 n ltac:(lia) Hn) as H0.
  rewrite Z.shiftl_0_r, Z.shiftr_0_r in H0.
  rewrite !Z.lor_spec, H0, !testbit_byte by lia.
  destruct (Z.ltb_spec n 32) as [H32 | H32].
  - destruct (Z.leb_spec 0 n), (Z.ltb_spec n (0 + 8)), (Z.leb_spec 8 n),
      (Z.ltb_spec n (8 + 8)), (Z.leb_spec 16 n), (Z.ltb_spec n (16 + 8)),
      (Z.leb_spec 24 n), (Z.ltb_spec n (24 + 8)); try lia;
      destruct (Z.testbit u n); reflexivity.
  - rewrite (testbit_high u 32 n) by lia. reflexivity.
Qed.

Ltac header_field :=
  unfold getUint32, getUint16, getUint8, wav_header;
  repeat match goal with
         | |- context [Z.to_nat ?z] =>
             let n := eval vm_compute in (Z.to_nat z) in
             change (Z.to_nat z) with n
         end;
  cbn [app le32 le16 lookup list_lookup default];
  first [apply le16_decode | apply le32_decode];
  apply Z.mod_pos_bound; lia.

(** The fields of a header, whatever follows it. *)
Lemma wav_header_fields (numOfChan len rate : Z) (tail : list Z) :
  let wav := wav_header numOfChan len rate ++ tail in
  getUint32 wav 4 = (len - 8) mod 2 ^ 32 /\
  getUint16 wav 22 = numOfChan mod 2 ^ 16 /\
  getUint32 wav 24 = rate mod 2 ^ 32 /\
  getUint32 wav 28 = (rate * 2 * numOfChan) mod 2 ^ 32 /\
  getUint16 wav 32 = (numOfChan * 2) mod 2 ^ 16 /\
  getUint16 wav 34 = 16 /\
  getUint32 wav 40 = (len - 44) mod 2 ^ 32.
Proof.
  intros wav. subst wav.
  split; [header_field |]. split; [header_field |].
  split; [header_field |]. split; [header_field |].
  split; [header_field |]. split; [reflexivity | header_field].
Qed.

Lemma length_wav_header (numOfChan len rate : Z) :
  length (wav_header numOfChan len rate) = 44%nat.
Proof. reflexivity. Qed.

Lemma length_wav_bytes (b : AudioBuffer) :
  0 <= ab_length b -> 0 < numberOfChannels b ->
  byteLength (wav_bytes b) = ab_length b * numberOfChannels b * 2 + 44.
Proof.
  intros HN HC. unfold byteLength, wav_bytes.
  destruct (frames_written_bounds _ _ HN HC) as (Hm & _ & _).
  fold (frames_written b) in Hm.
  rewrite !length_app, length_data_bytes, length_replicate.
  rewrite length_wav_header.
  set (m := frames_written b) in *.
  assert (E : (Z.to_nat m * (2 * length (ab_channels b)))%nat =
              Z.to_nat (m * (2 * numberOfChannels b))).
  { rewrite Z2Nat.inj_mul by lia. f_equal.
    unfold numberOfChannels. lia. }
  rewrite E.
  assert (0 <= m * numberOfChannels b
          <= ab_length b * numberOfChannels b) by nia.
  lia.
Qed.

(** C4: the container of a rendered buffer has
    [frameCount * channelCount * 2 + 44] bytes and its header parses back
    to the values it was produced from: channel count at offset 22, sample
    rate at 24, byte rate at 28, block align at 32, 16 bits per sample at
    34, the data size at 40 and the RIFF chunk size at 4.  The sizes are
    those a RIFF header can hold (32-bit fields). *)
Theorem wav_header_roundtrip (b : AudioBuffer) :
  wf_AudioBuffer b ->
  ab_sampleRate b * 2 * numberOfChannels b < 2 ^ 32 ->
  ab_length b * numberOfChannels b * 2 + 44 < 2 ^ 32 ->
  exists wav : ArrayBuffer,
    audioBufferToWav b = Ok wav /\
    byteLength wav = ab_length b * numberOfChannels b * 2 + 44 /\
    getUint16 wav 22 = numberOfChannels b /\
    getUint32 wav 24 = ab_sampleRate b /\
    getUint32 wav 28 = ab_sampleRate b * 2 * numberOfChannels b /\
    getUint16 wav 32 = numberOfChannels b * 2 /\
    getUint16 wav 34 = 16 /\
    getUint32 wav 40 = byteLength wav - 44 /\
    getUint32 wav 4 = byteLength wav - 8.
Proof.
  intros [Hrate HN HC HC32 _] Hbr Hsz.
  exists (wav_bytes b).
  split; [apply audioBufferToWav_closed_form; lia |].
  rewrite length_wav_bytes by lia.
  split; [reflexivity |].
  unfold wav_bytes.
  match goal with
  | |- context [wav_header ?c ?l ?r ++ ?t] =>
      destruct (wav_header_fields c l r t)
        as (H4 & H22 & H24 & H28 & H32 & H34 & H40)
  end.
  rewrite H4, H22, H24, H28, H32, H34, H40.
  rewrite !Z.mod_small by nia.
  repeat split; lia.
Qed.

(** *** Reading the data section back *)

Lemma lookup_frame_bytes (channels : list (list num)) (offset : Z)
    (c k : nat) (ch : list num) :
  channels !! c = Some ch -> (k < 2)%nat ->
  frame_bytes channels offset !! (2 * c + k)%nat =
  le16 (ToUint16 (scale_sample (clamp_sample (sample_at ch offset)))) !! k.
Proof.
  revert c. unfold frame_bytes.
  induction channels as [| ch0 l IH]; intros c Hc Hk; [discriminate |].
  rewrite bind_cons. destruct c as [| c].
  - injection Hc as ->. rewrite lookup_app_l by (rewrite length_le16; lia).
    reflexivity.
  - rewrite lookup_app_r by (rewrite length_le16; lia).
    rewrite length_le16.
    replace (2 * S c + k - 2)%nat with (2 * c + k)%nat by lia.
    now apply IH.
Qed.

Lemma lookup_data_bytes (channels : list (list num)) (offset : Z)
    (m f j : nat) :
  (f < m)%nat -> (j < 2 * length channels)%nat ->
  data_bytes channels offset m !! (f * (2 * length channels) + j)%nat =
  frame_bytes channels (offset + Z.of_nat f) !! j.
Proof.
  revert offset f.
  induction m as [| m IH]; intros offset f Hf Hj; [lia |].
  rewrite data_bytes_S. destruct f as [| f].
  - rewrite lookup_app_l by (rewrite length_frame_bytes; lia).
    simpl. now rewrite Z.add_0_r.
  - rewrite lookup_app_r by (rewrite length_frame_bytes; lia).
    rewrite length_frame_bytes.
    replace (S f * (2 * length channels) + j - 2 * length channels)%nat
      with (f * (2 * length channels) + j)%nat by lia.
    rewrite IH by lia. do 2 f_equal. lia.
Qed.

Lemma getInt16_le16 (x : num) (b0 b1 : Z) :
  le16 (ToUint16 x) !! 0%nat = Some b0 ->
  le16 (ToUint16 x) !! 1%nat = Some b1 ->
  (let u := Z.lor b0 (Z.shiftl b1 8) in
   if 32768 <=? u then u - 65536 else u) = ToInt16 x.
Proof.
  intros [= <-] [= <-]. cbv zeta.
  rewrite le16_decode; [reflexivity |].
  unfold ToUint16. apply Z.mod_pos_bound. lia.
Qed.

(** The byte of the data section at index [i] (container offset
    [44 + i]). *)
Lemma getUint8_data (b : AudioBuffer) (i : nat) :
  getUint8 (wav_bytes b) (44 + Z.of_nat i) =
  default 0
    ((data_bytes (ab_channels b) 0 (Z.to_nat (frames_written b)) ++
      replicate (Z.to_nat ((ab_length b - frames_written b)
                           * numberOfChannels b * 2)) 0) !! i).
Proof.
  unfold getUint8, wav_bytes. cbv zeta.
  replace (Z.to_nat (44 + Z.of_nat i)) with (44 + i)%nat by lia.
  rewrite (lookup_app_r (wav_header _ _ _));
    rewrite length_wav_header; [| lia].
  now replace (44 + i - 44)%nat with i by lia.
Qed.

(** What the data section holds for frame [f] and channel [c]: the
    quantized sample when the loop reached the frame, zero otherwise. *)
Theorem data_section_sample (b : AudioBuffer) (f : Z) (c : nat)
    (ch : list num) :
  0 <= f < ab_length b ->
  ab_channels b !! c = Some ch ->
  getInt16 (wav_bytes b) (44 + (f * numberOfChannels b + Z.of_nat c) * 2) =
  if f <? frames_written b then quantize (sample_at ch f) else 0.
Proof.
  intros Hf Hc. unfold getInt16, getUint16.
  pose proof (lookup_lt_Some _ _ _ Hc) as HcC.
  set (C := length (ab_channels b)) in *.
  set (i := (Z.to_nat f * (2 * C) + (2 * c + 0))%nat).
  replace (44 + (f * numberOfChannels b + Z.of_nat c) * 2)
    with (44 + Z.of_nat i) by (unfold numberOfChannels; fold C; nia).
  replace (44 + Z.of_nat i + 1) with (44 + Z.of_nat (S i)) by lia.
  rewrite !getUint8_data.
  set (m := frames_written b).
  destruct (Z.ltb_spec f m) as [Hfm | Hfm].
  - assert (Hlen : (S i < length (data_bytes (ab_channels b) 0 (Z.to_nat m)))%nat).
    { rewrite length_data_bytes. fold C. subst i.
      assert (S (Z.to_nat f) <= Z.to_nat m)%nat by lia. nia. }
    rewrite !lookup_app_l by lia.
    replace (S i) with (Z.to_nat f * (2 * C) + (2 * c + 1))%nat
      by (subst i; lia).
    subst i. unfold C. rewrite !lookup_data_bytes by (fold C; lia).
    rewrite !(lookup_frame_bytes _ _ _ _ ch) by (assumption || lia).
    rewrite Z.add_0_l, Z2Nat.id by lia.
    unfold quantize. now apply getInt16_le16.
  - assert (Hz : forall j : nat,
      default 0
        ((data_bytes (ab_channels b) 0 (Z.to_nat m) ++
          replicate (Z.to_nat ((ab_length b - m) * numberOfChannels b * 2)) 0)
         !! (Z.to_nat f * (2 * C) + j)%nat) = 0).
    { intros j. rewrite lookup_app_r
        by (rewrite length_data_bytes; fold C;
            assert (Z.to_nat m <= Z.to_nat f)%nat by lia; nia).
      match goal with
      | |- default 0 (replicate ?n 0 !! ?k) = 0 =>
          destruct (replicate n 0 !! k) as [z |] eqn:E; [| reflexivity];
          apply lookup_replicate in E as [-> _]; reflexivity
      end. }
    replace (S i) with (Z.to_nat f * (2 * C) + (2 * c + 1))%nat
      by (subst i; lia).
    subst i. rewrite !Hz. reflexivity.
Qed.

(** With at most 22 channels the loop stops before the last frame:
    whatever the samples, the last frame of the data section is zero. *)
Theorem last_frame_unwritten (b : AudioBuffer) (c : nat) (ch : list num) :
  wf_AudioBuffer b ->
  numberOfChannels b <= 22 ->
  ab_channels b !! c = Some ch ->
  getInt16 (wav_bytes b)
    (44 + ((ab_length b - 1) * numberOfChannels b + Z.of_nat c) * 2) = 0.
Proof.
  intros [_ HN HC _ _] H22 Hc.
  rewrite (data_section_sample b _ c ch) by (assumption || lia).
  unfold frames_written.
  assert (1 <= 22 / numberOfChannels b)
    by (apply Z.div_le_lower_bound; lia).
  destruct (Z.ltb_spec (ab_length b - 1)
              (Z.max 0 (ab_length b - 22 / numberOfChannels b)));
    [lia | reflexivity].
Qed.

Lemma wf_full_scale_24 : wf_AudioBuffer full_scale_24.
Proof.
  constructor; try (vm_compute; (reflexivity || discriminate)).
  repeat constructor.
Defined.

(** C1, on a mono buffer of 24 frames that are all 1.0: the container is
    produced and declares 48 data bytes, frames 0 and 1 hold 32767, and
    each of the frames 2 to 23 of the data section is 0 although its sample
    quantizes to 32767. *)
Theorem audioBufferToWav_tail_unwritten :
  wf_AudioBuffer full_scale_24 /\
  quantize (Fin 1) = 32767 /\
  exists wav : ArrayBuffer,
    audioBufferToWav full_scale_24 = Ok wav /\
    byteLength wav = 24 * 1 * 2 + 44 /\
    getUint32 wav 40 = 48 /\
    getInt16 wav (44 + (0 * 1 + 0) * 2) = 32767 /\
    getInt16 wav (44 + (1 * 1 + 0) * 2) = 32767 /\
    Forall (fun f : Z => getInt16 wav (44 + (f * 1 + 0) * 2) = 0)
           (seqZ 2 22).
Proof.
  split; [exact wf_full_scale_24 |]. split; [reflexivity |].
  exists (wav_bytes full_scale_24).
  split; [apply audioBufferToWav_closed_form; vm_compute; congruence |].
  do 4 (split; [vm_compute; reflexivity |]).
  apply Forall_forall. intros f Hf.
  apply elem_of_seqZ in Hf.
  change 1 with (numberOfChannels full_scale_24) at 1.
  change 0 with (Z.of_nat 0) at 1.
  rewrite (data_section_sample full_scale_24 f 0 (replicate 24 (Fin 1)));
    [| simpl; lia | reflexivity].
  change (frames_written full_scale_24) with 2.
  destruct (Z.ltb_spec f 2); [lia | reflexivity].
Qed.

Lemma wav_header_roundtrip_witness :
  exists wav : ArrayBuffer,
    audioBufferToWav full_scale_24 = Ok wav /\
    byteLength wav = 24 * 1 * 2 + 44 /\
    getUint16 wav 22 = 1 /\
    getUint32 wav 24 = 48000 /\
    getUint32 wav 28 = 48000 * 2 * 1 /\
    getUint16 wav 32 = 1 * 2 /\
    getUint16 wav 34 = 16 /\
    getUint32 wav 40 = byteLength wav - 44 /\
    getUint32 wav 4 = byteLength wav - 8.
Proof.
  apply (wav_header_roundtrip full_scale_24 wf_full_scale_24);
    vm_compute; reflexivity.
Defined.

End Encoder.

(** ** What the data section holds *)

Section StoredSamples.

(** The slot of a frame that the loop reaches holds what [setInt16] made of
    the clamped and scaled sample. *)
Lemma written_slot (b : AudioBuffer) (wav : ArrayBuffer) (f : Z) (c : nat)
    (ch : list num) :
  wf_AudioBuffer b ->
  audioBufferToWav b = Ok wav ->
  0 <= f < ab_length b - 22 / numberOfChannels b ->
  ab_channels b !! c = Some ch ->
  getInt16 wav (44 + (f * numberOfChannels b + Z.of_nat c) * 2) =
  ToInt16 (scale_sample (clamp_sample (sample_at ch f))).
Proof.
  intros [_ HN HC _ _] Hwav Hf Hc.
  rewrite audioBufferToWav_closed_form in Hwav by lia.
  injection Hwav as <-.
  assert (Hq : 0 <= 22 / numberOfChannels b) by (apply Z.div_pos; lia).
  rewrite (data_section_sample b f c ch) by (lia || exact Hc).
  unfold frames_written.
  destruct (Z.ltb_spec f (Z.max 0 (ab_length b - 22 / numberOfChannels b)));
    [reflexivity | lia].
Qed.

(** C7: in the container that [audioBufferToWav] returns, the 16-bit slot
    of a written frame reads 32767 when the sample is 1.0 or anything
    above (1.5, +Infinity), and -32768 when it is -1.0 or anything below:
    the sample is clamped to the bound first, and the bound is stored as
    it is, neither wrapped nor rescaled. *)
Theorem stored_sample_hard_clamp (b : AudioBuffer) (wav : ArrayBuffer)
    (f : Z) (c : nat) (ch : list num) :
  wf_AudioBuffer b ->
  audioBufferToWav b = Ok wav ->
  0 <= f < ab_length b - 22 / numberOfChannels b ->
  ab_channels b !! c = Some ch ->
  let x := sample_at ch f in
  let stored :=
    getInt16 wav (44 + (f * numberOfChannels b + Z.of_nat c) * 2) in
  (x = PInf \/ (exists q, x = Fin q /\ (1 <= q)%Q) ->
   clamp_sample x = Fin 1 /\ stored = 32767) /\
  (x = NInf \/ (exists q, x = Fin q /\ (q <= -1)%Q) ->
   clamp_sample x = Fin (-1) /\ stored = -32768).
Proof.
  intros Hwf Hwav Hf Hc. cbv zeta.
  rewrite (written_slot b wav f c ch Hwf Hwav Hf Hc).
  split; intros Hx.
  - rewrite (clamp_sample_high _ Hx). split; reflexivity.
  - rewrite (clamp_sample_low _ Hx). split; reflexivity.
Qed.

(** C10: in the container that [audioBufferToWav] returns, the 16-bit slot
    of a written frame reads the clamped sample [s] times 32768 when
    [s < 0] and times 32767 when [s >= 0], truncated toward zero: 0 for a
    sample 0, 16383 for 0.5, -16384 for -0.5.  The truncated product is in
    [-32768, 32767] and the slot reads that very integer, so the 16-bit
    store has not wrapped. *)
Theorem stored_sample_asymmetric_truncating (b : AudioBuffer)
    (wav : ArrayBuffer) (f : Z) (c : nat) (ch : list num) :
  wf_AudioBuffer b ->
  audioBufferToWav b = Ok wav ->
  0 <= f < ab_length b - 22 / numberOfChannels b ->
  ab_channels b !! c = Some ch ->
  let stored :=
    getInt16 wav (44 + (f * numberOfChannels b + Z.of_nat c) * 2) in
  -32768 <= stored <= 32767 /\
  stored = ToIntegerOrZero (scale_sample (clamp_sample (sample_at ch f))) /\
  forall q : Q, sample_at ch f = Fin q ->
    (let s := Qmax (-1) (Qmin 1 q) in
     stored =
       if Qlt_le_dec s 0 then Qtrunc (s * 32768) else Qtrunc (s * 32767)) /\
    ((q == 0)%Q -> stored = 0) /\
    ((q == 1 # 2)%Q -> stored = 16383) /\
    ((q == - (1 # 2))%Q -> stored = -16384).
Proof.
  intros Hwf Hwav Hf Hc. cbv zeta.
  rewrite (written_slot b wav f c ch Hwf Hwav Hf Hc).
  change (ToInt16 (scale_sample (clamp_sample (sample_at ch f))))
    with (quantize (sample_at ch f)).
  destruct (quantize_no_wrap (sample_at ch f)) as [Heq Hr].
  split; [exact Hr |]. split; [exact Heq |].
  intros q Hq. rewrite Hq.
  split; [apply quantize_Fin |].
  split; [| split]; intros E; rewrite (quantize_Qeq _ _ E); reflexivity.
Qed.

Lemma wf_scale_clip : wf_AudioBuffer scale_clip.
Proof.
  constructor;
    [reflexivity | reflexivity | reflexivity | vm_compute; discriminate
    | repeat constructor].
Defined.

Lemma stored_sample_hard_clamp_witness :
  exists wav : ArrayBuffer,
    audioBufferToWav scale_clip = Ok wav /\
    getInt16 wav (44 + (0 * 1 + 0) * 2) = 32767 /\
    getInt16 wav (44 + (1 * 1 + 0) * 2) = -32768 /\
    getInt16 wav (44 + (2 * 1 + 0) * 2) = 32767.
Proof.
  exists (wav_bytes scale_clip).
  assert (Hwav : audioBufferToWav scale_clip = Ok (wav_bytes scale_clip))
    by (vm_compute; reflexivity).
  pose (ch := [Fin 1; Fin (-1); Fin 1.5; Fin 0; Fin 0.5; Fin (-0.5)]
              ++ replicate 22 (Fin 0)).
  assert (Hch : ab_channels scale_clip !! 0%nat = Some ch) by reflexivity.
  split; [exact Hwav |]. split; [| split].
  - refine (proj2 (proj1 (stored_sample_hard_clamp scale_clip _ 0 0%nat ch
                            wf_scale_clip Hwav _ Hch) _)).
    + vm_compute. split; [discriminate | reflexivity].
    + right. exists 1%Q. split; [reflexivity | discriminate].
  - refine (proj2 (proj2 (stored_sample_hard_clamp scale_clip _ 1 0%nat ch
                            wf_scale_clip Hwav _ Hch) _)).
    + vm_compute. split; [discriminate | reflexivity].
    + right. exists (-1)%Q. split; [reflexivity | discriminate].
  - refine (proj2 (proj1 (stored_sample_hard_clamp scale_clip _ 2 0%nat ch
                            wf_scale_clip Hwav _ Hch) _)).
    + vm_compute. split; [discriminate | reflexivity].
    + right. exists 1.5%Q. split; [reflexivity | discriminate].
Defined.

Lemma stored_sample_asymmetric_truncating_witness :
  exists wav : ArrayBuffer,
    audioBufferToWav scale_clip = Ok wav /\
    getInt16 wav (44 + (3 * 1 + 0) * 2) = 0 /\
    getInt16 wav (44 + (4 * 1 + 0) * 2) = 16383 /\
    getInt16 wav (44 + (5 * 1 + 0) * 2) = -16384.
Proof.
  exists (wav_bytes scale_clip).
  assert (Hwav : audioBufferToWav scale_clip = Ok (wav_bytes scale_clip))
    by (vm_compute; reflexivity).
  pose (ch := [Fin 1; Fin (-1); Fin 1.5; Fin 0; Fin 0.5; Fin (-0.5)]
              ++ replicate 22 (Fin 0)).
  assert (Hch : ab_channels scale_clip !! 0%nat = Some ch) by reflexivity.
  split; [exact Hwav |]. split; [| split].
  - refine (proj1 (proj2 (proj2 (proj2
      (stored_sample_asymmetric_truncating scale_clip _ 3 0%nat ch
         wf_scale_clip Hwav _ Hch)) 0%Q _)) _).
    + vm_compute. split; [discriminate | reflexivity].
    + reflexivity.
    + reflexivity.
  - refine (proj1 (proj2 (proj2 (proj2 (proj2
      (stored_sample_asymmetric_truncating scale_clip _ 4 0%nat ch
         wf_scale_clip Hwav _ Hch)) 0.5%Q _))) _).
    + vm_compute. split; [discriminate | reflexivity].
    + reflexivity.
    + reflexivity.
  - refine (proj2 (proj2 (proj2 (proj2 (proj2
      (stored_sample_asymmetric_truncating scale_clip _ 5 0%nat ch
         wf_scale_clip Hwav _ Hch)) (-0.5)%Q _))) _).
    + vm_compute. split; [discriminate | reflexivity].
    + reflexivity.
    + reflexivity.
Defined.

End StoredSamples.

(** ** Presets *)

Section Presets.

(** C8: the preset table holds the six named presets with exactly these
    pitch and speed values, and nothing else. *)
Theorem voicePresets_exact :
  voicePresets !! "original"%string
    = Some {| pitch := Fin 0; speed := Fin 1 |} /\
  voicePresets !! "deep-male"%string
    = Some {| pitch := Fin (-4); speed := Fin 0.95 |} /\
  voicePresets !! "male"%string
    = Some {| pitch := Fin (-2); speed := Fin 1 |} /\
  voicePresets !! "female"%string
    = Some {| pitch := Fin 4; speed := Fin 1.05 |} /\
  voicePresets !! "high-female"%string
    = Some {| pitch := Fin 6; speed := Fin 1.1 |} /\
  voicePresets !! "robotic"%string
    = Some {| pitch := Fin (-1); speed := Fin 0.9 |} /\
  size voicePresets = 6%nat.
Proof. repeat split; vm_compute; reflexivity. Qed.

End Presets.

(** ** Binary64 rounding *)

Section Binary64.

Lemma pow2_pos (k : Z) : (0 < pow2 k)%Q.
Proof. apply Qpower_0_lt. reflexivity. Qed.

Lemma pow2_add (a b : Z) : (pow2 (a + b) == pow2 a * pow2 b)%Q.
Proof. apply Qpower_plus. discriminate. Qed.

Lemma pow2_opp (a : Z) : (pow2 (- a) == / pow2 a)%Q.
Proof. apply Qpower_opp. Qed.

Lemma pow2_Z (k : Z) : 0 <= k -> (pow2 k == inject_Z (2 ^ k))%Q.
Proof. intros H. unfold pow2. now rewrite Zpower_Qpower. Qed.

Lemma pow2_le (a b : Z) : a <= b -> (pow2 a <= pow2 b)%Q.
Proof. intros H. apply Qpower_le_compat_l; [exact H | discriminate]. Qed.

(** [Qlog2] does not overshoot. *)
Lemma Qlog2_le (a : Q) : (0 < a)%Q -> (pow2 (Qlog2 a) <= a)%Q.
Proof.
  intros Ha. unfold Qlog2.
  set (ln := Z.log2 (Qnum a)). set (ld := Z.log2 (Z.pos (Qden a))).
  destruct (Qle_bool (pow2 (ln - ld)) a) eqn:Hb;
    [now apply Qle_bool_iff |].
  assert (Hn : 0 < Qnum a).
  { destruct a as [n d]. unfold Qlt in Ha. simpl in *. lia. }
  destruct (Z.log2_spec (Qnum a) Hn) as [Hn1 _]. fold ln in Hn1.
  destruct (Z.log2_spec (Z.pos (Qden a)) ltac:(lia)) as [_ Hd1].
  fold ld in Hd1.
  assert (Hln : 0 <= ln) by apply Z.log2_nonneg.
  assert (Hld : 0 <= ld) by apply Z.log2_nonneg.
  replace (ln - ld - 1) with (ln + - (ld + 1)) by lia.
  rewrite pow2_add, pow2_opp.
  rewrite (pow2_Z ln), (pow2_Z (ld + 1)) by lia.
  apply Qle_shift_div_r.
  - unfold Qlt. simpl. lia.
  - destruct a as [n d]. unfold Qle. simpl in *.
    rewrite !Z.mul_1_r.
    assert (2 ^ ln * Z.pos d <= n * Z.pos d) by nia.
    assert (0 < 2 ^ ln) by lia. nia.
Qed.

Lemma round_half_even_error (x : Q) :
  (Qabs (inject_Z (round_half_even x) - x) <= 1 # 2)%Q.
Proof.
  unfold round_half_even.
  pose proof (Qfloor_le x) as Hlo. pose proof (Qlt_floor x) as Hhi.
  rewrite inject_Z_plus in Hhi. change (inject_Z 1) with 1%Q in Hhi.
  apply Qabs_Qle_condition.
  destruct (Qcompare_spec (x - inject_Z (Qfloor x)) (1 # 2)) as [H | H | H].
  - destruct (Z.even (Qfloor x)).
    + lra.
    + rewrite inject_Z_plus. change (inject_Z 1) with 1%Q. lra.
  - lra.
  - rewrite inject_Z_plus. change (inject_Z 1) with 1%Q. lra.
Qed.

(** One rounding, away from overflow and from the subnormals, is off by at
    most [f64_eps] of the exact value. *)
Lemma f64_pos_error (a : Q) :
  (pow2 (-1022) <= a)%Q -> (a < pow2 1023)%Q ->
  exists v, f64_pos a = Some v /\ (Qabs (v - a) <= a * f64_eps)%Q.
Proof.
  intros Hlo Hhi. unfold f64_pos.
  assert (Ha : (0 < a)%Q).
  { pose proof (pow2_pos (-1022)). lra. }
  set (e := Z.max (Qlog2 a) (-1022)).
  assert (He : (pow2 e <= a)%Q).
  { unfold e. destruct (Z.max_spec (Qlog2 a) (-1022)) as [[_ ->] | [_ ->]];
      [exact Hlo | now apply Qlog2_le]. }
  set (ulp := pow2 (e - 52)).
  pose proof (pow2_pos (e - 52)) as Hulp. fold ulp in Hulp.
  set (m := round_half_even (a / ulp)).
  pose proof (round_half_even_error (a / ulp)) as Hm. fold m in Hm.
  set (v := Qred (inject_Z m * ulp)).
  assert (Hv : (v == inject_Z m * ulp)%Q) by apply Qred_correct.
  assert (Herr : (Qabs (v - a) <= a * f64_eps)%Q).
  { assert (Heq : (v - a == (inject_Z m - a / ulp) * ulp)%Q).
    { rewrite Hv. field. lra. }
    rewrite Heq, Qabs_Qmult, (Qabs_pos ulp) by lra.
    assert (H1 : (Qabs (inject_Z m - a / ulp) * ulp <= (1 # 2) * ulp)%Q).
    { apply Qmult_le_compat_r; [exact Hm | lra]. }
    assert (H2 : ((1 # 2) * ulp == pow2 e * f64_eps)%Q).
    { unfold ulp. replace (e - 52) with (e + -52) by lia.
      rewrite pow2_add.
      assert (((1 # 2) * pow2 (-52) == f64_eps)%Q) as <- by reflexivity.
      ring. }
    assert (H3 : (pow2 e * f64_eps <= a * f64_eps)%Q).
    { apply Qmult_le_compat_r; [exact He | unfold f64_eps; lra]. }
    lra. }
  destruct (Qle_bool (pow2 1024) v) eqn:Hov.
  - apply Qle_bool_iff in Hov.
    apply Qabs_Qle_condition in Herr.
    assert (H1024 : (pow2 1024 == 2 * pow2 1023)%Q).
    { replace 1024 with (1 + 1023) by lia. now rewrite pow2_add. }
    assert (a * f64_eps <= a)%Q.
    { rewrite <- (Qmult_1_r a) at 2. apply Qmult_le_l; [exact Ha |].
      unfold f64_eps. lra. }
    lra.
  - exists v. split; [reflexivity | exact Herr].
Qed.

Lemma f64_error (q : Q) :
  (pow2 (-1022) <= Qabs q)%Q -> (Qabs q < pow2 1023)%Q ->
  exists r, f64 q = Fin r /\ (Qabs (r - q) <= Qabs q * f64_eps)%Q.
Proof.
  intros Hlo Hhi. unfold f64.
  destruct q as [[| n | n] d]; cbn [Qnum].
  - pose proof (pow2_pos (-1022)).
    assert (Qabs (0 # d) == 0)%Q by reflexivity. lra.
  - change (Qabs (Z.pos n # d)) with (Z.pos n # d) in *.
    destruct (f64_pos_error _ Hlo Hhi) as (v & -> & Hv). now exists v.
  - change (Qabs (Z.neg n # d)) with (- (Z.neg n # d))%Q in *.
    destruct (f64_pos_error _ Hlo Hhi) as (v & -> & Hv).
    exists (- v)%Q. split; [reflexivity |].
    assert (Heq : (- v - (Z.neg n # d) == - (v - - (Z.neg n # d)))%Q) by ring.
    now rewrite Heq, Qabs_opp.
Qed.

(** Magnitudes between two powers of 2: of a product, of an inverse. *)
Lemma Qabs_mult_range (x c : Q) (a1 b1 a2 b2 : Z) :
  (pow2 a1 <= Qabs x <= pow2 b1)%Q ->
  (pow2 a2 <= Qabs c <= pow2 b2)%Q ->
  (pow2 (a1 + a2) <= Qabs (x * c) <= pow2 (b1 + b2))%Q.
Proof.
  intros [Hx0 Hx1] [Hc0 Hc1]. rewrite Qabs_Qmult, !pow2_add.
  pose proof (pow2_pos a1). pose proof (pow2_pos a2).
  split; apply Qmult_le_compat_nonneg; split; lra.
Qed.

Lemma Qabs_inv_range (s : Q) (a b : Z) :
  (pow2 a <= Qabs s <= pow2 b)%Q ->
  (pow2 (- b) <= Qabs (/ s) <= pow2 (- a))%Q.
Proof.
  intros [H0 H1]. rewrite Qabs_Qinv, !pow2_opp.
  pose proof (pow2_pos a). pose proof (pow2_pos b).
  pose proof (Qinv_lt_0_compat _ H) as Hia.
  pose proof (Qinv_lt_0_compat _ H2) as Hib.
  assert (Ea : (/ pow2 a * pow2 a == 1)%Q) by (field; lra).
  assert (Eb : (/ pow2 b * pow2 b == 1)%Q) by (field; lra).
  split.
  - apply Qle_shift_inv_l; [lra |]. rewrite <- Eb.
    apply Qmult_le_l; assumption.
  - apply Qle_shift_inv_r; [lra |]. rewrite <- Ea.
    apply Qmult_le_l; assumption.
Qed.

Lemma Qabs_range_weaken (x : Q) (a b a' b' : Z) :
  a' <= a -> b <= b' ->
  (pow2 a <= Qabs x <= pow2 b)%Q -> (pow2 a' <= Qabs x <= pow2 b')%Q.
Proof.
  intros Ha Hb [H0 H1].
  pose proof (pow2_le a' a Ha). pose proof (pow2_le b b' Hb).
  split; lra.
Qed.

(** A value known up to the relative error [a], multiplied and rounded,
    is known up to [a + (1 + a) * f64_eps]. *)
Lemma f64_step (X y c a : Q) :
  (Qabs (y - X) <= Qabs X * a)%Q ->
  (0 <= a <= 1 # 2)%Q ->
  (pow2 (-1021) <= Qabs (X * c) <= pow2 1022)%Q ->
  exists r,
    f64 (y * c) = Fin r /\
    (Qabs (r - X * c) <= Qabs (X * c) * (a + (1 + a) * f64_eps))%Q.
Proof.
  intros Hy [Ha0 Ha1] [Hlo Hhi].
  assert (HD : (Qabs (y * c - X * c) <= Qabs (X * c) * a)%Q).
  { assert (Heq : (y * c - X * c == (y - X) * c)%Q) by ring.
    rewrite Heq, !Qabs_Qmult.
    assert (Hm : (Qabs (y - X) * Qabs c <= Qabs X * a * Qabs c)%Q).
    { apply Qmult_le_compat_r; [exact Hy | apply Qabs_nonneg]. }
    lra. }
  set (W := Qabs (X * c)) in *.
  assert (HY : (W - W * a <= Qabs (y * c) <= W + W * a)%Q).
  { pose proof (Qabs_triangle (y * c - X * c) (X * c)) as T1.
    pose proof (Qabs_triangle_reverse (X * c) (X * c - y * c)) as T2.
    assert (E1 : (y * c - X * c + X * c == y * c)%Q) by ring.
    assert (E2 : (X * c - (X * c - y * c) == y * c)%Q) by ring.
    rewrite E1 in T1. rewrite E2 in T2.
    rewrite (Qabs_Qminus (X * c) (y * c)) in T2.
    fold W in T1, T2. lra. }
  assert (HWa : (0 <= W * a <= W * (1 # 2))%Q).
  { pose proof (Qabs_nonneg (X * c)) as HW. fold W in HW.
    split; [apply Qmult_le_0_compat; lra |].
    apply Qmult_le_l; [| exact Ha1].
    pose proof (pow2_pos (-1021)). lra. }
  assert (H1022 : (pow2 (-1021) == 2 * pow2 (-1022))%Q).
  { replace (-1021) with (1 + -1022) by lia. now rewrite pow2_add. }
  assert (H1023 : (pow2 1023 == 2 * pow2 1022)%Q).
  { replace 1023 with (1 + 1022) by lia. now rewrite pow2_add. }
  pose proof (pow2_pos 1022) as Hp.
  destruct (f64_error (y * c)) as (r & Er & Hr); [lra | lra |].
  exists r. split; [exact Er |].
  pose proof (Qabs_triangle (r - y * c) (y * c - X * c)) as T.
  assert (E : (r - y * c + (y * c - X * c) == r - X * c)%Q) by ring.
  rewrite E in T. fold W in T.
  assert (Hu : (Qabs (y * c) * f64_eps <= (W + W * a) * f64_eps)%Q).
  { apply Qmult_le_compat_r; [lra | unfold f64_eps; lra]. }
  assert (Eg : (W * (a + (1 + a) * f64_eps)
                == W * a + (W + W * a) * f64_eps)%Q) by ring.
  rewrite Eg. lra.
Qed.

End Binary64.

(** ** The pipeline *)

Section Arithmetic.

Lemma Qsgn_pos (q : Q) : (0 < q)%Q -> exists p, Qsgn q = Z.pos p.
Proof.
  destruct q as [[| n | n] d]; unfold Qlt, Qsgn; simpl; intros H.
  - lia.
  - now exists 1%positive.
  - lia.
Qed.

Lemma Qsgn_zero (q : Q) : (q == 0)%Q -> Qsgn q = 0.
Proof.
  destruct q as [n d]. unfold Qeq, Qsgn. simpl. intros H.
  rewrite Z.mul_1_r in H. now subst n.
Qed.

Lemma num_div_nonzero (x y : Q) :
  ~ (y == 0)%Q -> num_div (Fin x) (Fin y) = Fin (x / y).
Proof.
  intros H. destruct y as [[| n | n] d]; [| reflexivity | reflexivity].
  exfalso. apply H. reflexivity.
Qed.

Lemma num_div_by_zero (x y : Q) :
  (0 < x)%Q -> (y == 0)%Q -> num_div (Fin x) (Fin y) = PInf.
Proof.
  intros Hx Hy. simpl. rewrite (Qsgn_zero y Hy).
  now destruct (Qsgn_pos x Hx) as [p ->].
Qed.

Lemma num_mul_PInf_pos (y : Q) : (0 < y)%Q -> num_mul PInf (Fin y) = PInf.
Proof. intros H. simpl. now destruct (Qsgn_pos y H) as [p ->]. Qed.

Lemma inject_Z_pos (z : Z) : 0 < z -> (0 < inject_Z z)%Q.
Proof. intros H. unfold Qlt. simpl. lia. Qed.

Lemma inject_Z_range (z : Z) :
  0 < z < 2 ^ 32 -> (pow2 0 <= Qabs (inject_Z z) <= pow2 32)%Q.
Proof.
  intros Hz. rewrite Qabs_pos by (unfold Qle; simpl; lia).
  rewrite (pow2_Z 0), (pow2_Z 32) by lia. rewrite <- !Zle_Qle. lia.
Qed.

Lemma f64_error_range (q : Q) :
  (pow2 (-1021) <= Qabs q <= pow2 1022)%Q ->
  exists r, f64 q = Fin r /\ (Qabs (r - q) <= Qabs q * f64_eps)%Q.
Proof.
  intros [H0 H1].
  pose proof (pow2_le (-1022) (-1021) ltac:(lia)).
  assert (pow2 1022 < pow2 1023)%Q
    by (apply Qpower_lt_compat_l; [lia | reflexivity]).
  apply f64_error; lra.
Qed.

(** [audioBuffer.duration] is the quotient, off by one rounding. *)
Lemma ab_duration_error (b : AudioBuffer) :
  0 < ab_sampleRate b < 2 ^ 32 -> 0 < ab_length b < 2 ^ 32 ->
  let d := (inject_Z (ab_length b) / inject_Z (ab_sampleRate b))%Q in
  (pow2 (-32) <= Qabs d <= pow2 32)%Q /\
  exists r, ab_duration b = Fin r /\ (Qabs (r - d) <= Qabs d * f64_eps)%Q.
Proof.
  intros HR HN d.
  pose proof (Qabs_mult_range _ _ _ _ _ _ (inject_Z_range _ HN)
                (Qabs_inv_range _ _ _ (inject_Z_range _ HR))) as Hd.
  change (0 + - 32) with (-32) in Hd. change (32 + - 0) with 32 in Hd.
  split; [exact Hd |].
  unfold ab_duration, f64_div, num_of_Z.
  rewrite num_div_nonzero
    by (pose proof (inject_Z_pos _ (proj1 HR)); intros E; lra).
  apply f64_error_range.
  now apply (Qabs_range_weaken _ (-32) 32).
Qed.

(** The frame count handed to the offline context is the input length over
    the speed, off by three roundings. *)
Lemma requestedLength_error (P : Platform) (b : AudioBuffer) (s : Q) :
  0 < context_sampleRate P < 2 ^ 32 ->
  ab_sampleRate b = context_sampleRate P ->
  0 < ab_length b < 2 ^ 32 ->
  (pow2 (-64) <= Qabs s <= pow2 64)%Q ->
  let x := (inject_Z (ab_length b) / s)%Q in
  exists r,
    requestedLength P b (Fin s) = Fin r /\
    (Qabs (r - x) <= Qabs x * (4 * f64_eps))%Q.
Proof.
  intros HR Hb HN Hs x.
  assert (Hsne : ~ (s == 0)%Q).
  { intros E. rewrite E in Hs. destruct Hs as [Hs0 _].
    change (Qabs 0) with 0%Q in Hs0. pose proof (pow2_pos (-64)). lra. }
  pose proof (inject_Z_pos _ (proj1 HR)) as HRpos.
  destruct (ab_duration_error b ltac:(now rewrite Hb) HN)
    as (Hd & r1 & E1 & H1).
  rewrite Hb in Hd, H1.
  unfold requestedLength. rewrite E1. unfold f64_div at 1.
  rewrite (num_div_nonzero r1 s Hsne).
  set (d := (inject_Z (ab_length b) / inject_Z (context_sampleRate P))%Q)
    in *.
  pose proof (Qabs_mult_range _ _ _ _ _ _ Hd (Qabs_inv_range _ _ _ Hs))
    as Hds.
  change (-32 + - 64) with (-96) in Hds. change (32 + - -64) with 96 in Hds.
  destruct (f64_step d r1 (/ s) f64_eps) as (r2 & E2 & H2);
    [exact H1 | unfold f64_eps; split; lra
    | now apply (Qabs_range_weaken _ (-96) 96) |].
  change (r1 / s)%Q with (r1 * / s)%Q. rewrite E2.
  unfold f64_mul, num_of_Z. cbn [num_mul].
  pose proof (Qabs_mult_range _ _ _ _ _ _ Hds (inject_Z_range _ HR)) as Hx.
  change (-96 + 0) with (-96) in Hx. change (96 + 32) with 128 in Hx.
  destruct (f64_step (d * / s) r2 (inject_Z (context_sampleRate P))
              (f64_eps + (1 + f64_eps) * f64_eps)) as (r3 & E3 & H3);
    [exact H2 | unfold f64_eps; split; lra
    | now apply (Qabs_range_weaken _ (-96) 128) |].
  exists r3. split; [exact E3 |].
  assert (Ex : (d * / s * inject_Z (context_sampleRate P) == x)%Q).
  { unfold d, x. field. split; [exact Hsne | lra]. }
  rewrite Ex in H3.
  pose proof (Qabs_nonneg x) as Hx0.
  unfold f64_eps in *. lra.
Qed.

(** With a zero speed the requested frame count is +Infinity, which the
    conversion to [unsigned long] turns into 0. *)
Lemma requestedLength_zero_speed (P : Platform) (b : AudioBuffer) (s : Q) :
  0 < context_sampleRate P < 2 ^ 32 ->
  ab_sampleRate b = context_sampleRate P ->
  0 < ab_length b < 2 ^ 32 ->
  (s == 0)%Q ->
  requestedLength P b (Fin s) = PInf.
Proof.
  intros HR Hb HN Hs.
  destruct (ab_duration_error b ltac:(now rewrite Hb) HN)
    as ([Hd0 _] & r1 & E1 & H1).
  set (d := (inject_Z (ab_length b) / inject_Z (ab_sampleRate b))%Q) in *.
  assert (Hr1 : (0 < r1)%Q).
  { pose proof (pow2_pos (-32)).
    apply Qabs_Qle_condition in H1. destruct H1 as [H1 _].
    assert (Hd : (0 < d)%Q).
    { unfold d. apply Qlt_shift_div_l;
        [apply inject_Z_pos; lia | rewrite Qmult_0_l; apply inject_Z_pos; lia]. }
    rewrite (Qabs_pos d) in H1 by lra. unfold f64_eps in H1. lra. }
  unfold requestedLength, f64_mul, f64_div, num_of_Z. rewrite E1.
  rewrite (num_div_by_zero r1 s Hr1 Hs).
  rewrite num_mul_PInf_pos; [reflexivity | apply inject_Z_pos; lia].
Qed.

(** A number within [4 * f64_eps] of a quotient [x] below 2^32 truncates
    to [round x] or to one less. *)
Lemma near_round (x r : Q) :
  (0 <= x <= 4294967294)%Q ->
  (Qabs (r - x) <= x * (4 * f64_eps))%Q ->
  (0 <= r)%Q /\
  0 <= Qfloor r < 2 ^ 32 /\
  Math_round x - 1 <= Qfloor r <= Math_round x /\
  ((3 # 2 <= x)%Q -> 1 <= Qfloor r).
Proof.
  intros [Hx0 Hx1] Hr. apply Qabs_Qle_condition in Hr.
  unfold f64_eps in Hr. destruct Hr as [Hr0 Hr1].
  pose proof (Qfloor_le r) as Hf0. pose proof (Qlt_floor r) as Hf1.
  rewrite inject_Z_plus in Hf1. change (inject_Z 1) with 1%Q in Hf1.
  assert (Hr : (0 <= r)%Q) by lra.
  split; [exact Hr |]. split; [split |]; [| | split; [split |]].
  - change 0 with (Qfloor 0). now apply Qfloor_resp_le.
  - rewrite Zlt_Qlt. change (inject_Z (2 ^ 32)) with 4294967296%Q. lra.
  - unfold Math_round.
    pose proof (Qfloor_le (x + (1 # 2))) as Hm.
    assert (H : (inject_Z (Qfloor (x + (1 # 2)))
                 < inject_Z (Qfloor r + 2))%Q).
    { rewrite inject_Z_plus. change (inject_Z 2) with 2%Q. lra. }
    rewrite <- Zlt_Qlt in H. lia.
  - unfold Math_round. rewrite <- (Qfloor_Z (Qfloor r)).
    apply Qfloor_resp_le. lra.
  - intros H32. change 1 with (Qfloor 1). apply Qfloor_resp_le. lra.
Qed.

End Arithmetic.

Section Pipeline.

Variable P : Platform.
Variable audioBlob : list Z.
Variable audioBuffer : AudioBuffer.
Hypothesis decoded : decodeAudioData P audioBlob = Ok audioBuffer.

(** [transformAudio_graph], run: either the context is refused, or the
    rate is, or the graph is a source into a filter into the
    destination. *)
Lemma transformAudio_graph_run (pitchShift playbackRate : num) :
  transformAudio_graph P audioBlob pitchShift playbackRate =
  let C := numberOfChannels audioBuffer in
  let L := ToUint32 (requestedLength P audioBuffer playbackRate) in
  if (C <? 1) || (L =? 0) || (context_sampleRate P <=? 0)
  then Throw NotSupportedError
  else if is_float (combinedRate P pitchShift playbackRate)
  then Ok {| oc_numberOfChannels := C;
             oc_length := L;
             oc_sampleRate := context_sampleRate P;
             oc_nodes :=
               [AudioBufferSourceNode (Some audioBuffer)
                  (combinedRate P pitchShift playbackRate)
                  (Some (num_of_Z 0));
                BiquadFilterNode lowpass (num_of_Z 3000)];
             oc_connections := [(0%nat, node 1); (1%nat, destination)] |}
  else Throw TypeError.
Proof.
  unfold transformAudio_graph. rewrite decoded, bind_Ok.
  unfold new_OfflineAudioContext. cbv zeta.
  fold (requestedLength P audioBuffer playbackRate).
  fold (combinedRate P pitchShift playbackRate).
  destruct ((numberOfChannels audioBuffer <? 1) || _ || _);
    [reflexivity |].
  rewrite bind_Ok. cbn [createBufferSource add_node oc_nodes length].
  unfold set_playbackRate, set_param.
  destruct (is_float (combinedRate P pitchShift playbackRate));
    [| reflexivity].
  rewrite bind_Ok. cbn [createBiquadFilter add_node oc_nodes length].
  unfold set_frequency, set_param.
  assert (is_float (num_of_Z 3000) = true) as -> by (vm_compute; reflexivity).
  reflexivity.
Qed.


Lemma transformAudio_render_run (pitchShift playbackRate : num) :
  transformAudio_render P audioBlob pitchShift playbackRate =
  ctx ← transformAudio_graph P audioBlob pitchShift playbackRate;
  startRendering P ctx.
Proof. reflexivity. Qed.

(** The dimensions of a rendered buffer are those of its context. *)
Lemma rendered_buffer_dims (ctx : OfflineAudioContext) :
  0 <= oc_numberOfChannels ctx ->
  numberOfChannels (rendered_buffer P ctx) = oc_numberOfChannels ctx /\
  ab_length (rendered_buffer P ctx) = oc_length ctx /\
  ab_sampleRate (rendered_buffer P ctx) = oc_sampleRate ctx.
Proof.
  intros HC. unfold numberOfChannels, rendered_buffer. cbn [ab_channels].
  rewrite length_fmap, length_seqZ. repeat split. lia.
Qed.

(** A rendering, if there is one, comes from a context of the channel count
    of the input, the requested length and the rate of the platform, and
    the platform had the memory for it. *)
Lemma transformAudio_render_inv (pitchShift playbackRate : num)
    (rendered : AudioBuffer) :
  transformAudio_render P audioBlob pitchShift playbackRate = Ok rendered ->
  1 <= numberOfChannels audioBuffer /\
  numberOfChannels rendered = numberOfChannels audioBuffer /\
  ab_length rendered = ToUint32 (requestedLength P audioBuffer playbackRate) /\
  ab_length rendered <> 0 /\
  ab_sampleRate rendered = context_sampleRate P /\
  ab_length rendered * numberOfChannels rendered <= render_capacity P.
Proof.
  rewrite transformAudio_render_run, transformAudio_graph_run. cbv zeta.
  destruct (Z.ltb_spec (numberOfChannels audioBuffer) 1) as [HC | HC];
    [discriminate |].
  destruct (Z.eqb_spec (ToUint32 (requestedLength P audioBuffer playbackRate)) 0)
    as [HL | HL]; [discriminate |].
  destruct (context_sampleRate P <=? 0); [discriminate |].
  destruct (is_float _); [| discriminate].
  cbn [orb]. rewrite bind_Ok. unfold startRendering.
  cbn [oc_numberOfChannels oc_length].
  destruct (Z.ltb_spec (render_capacity P)
              (ToUint32 (requestedLength P audioBuffer playbackRate)
               * numberOfChannels audioBuffer)) as [Hcap | Hcap];
    [discriminate |].
  intros [= <-].
  match goal with
  | |- context [rendered_buffer P ?ctx] =>
      destruct (rendered_buffer_dims ctx) as (-> & -> & ->);
        cbn [oc_numberOfChannels oc_length oc_sampleRate]
  end; [lia |]. repeat split; assumption || lia.
Qed.

(** A rendering there is, as soon as the platform accepts the context and
    the rate and has the memory. *)
Lemma transformAudio_render_ok (pitchShift playbackRate : num) :
  1 <= numberOfChannels audioBuffer ->
  ToUint32 (requestedLength P audioBuffer playbackRate) <> 0 ->
  0 < context_sampleRate P ->
  is_float (combinedRate P pitchShift playbackRate) = true ->
  ToUint32 (requestedLength P audioBuffer playbackRate)
    * numberOfChannels audioBuffer <= render_capacity P ->
  exists rendered,
    transformAudio_render P audioBlob pitchShift playbackRate = Ok rendered.
Proof.
  intros HC HL Hr Hfin Hcap.
  rewrite transformAudio_render_run, transformAudio_graph_run. cbv zeta.
  destruct (Z.ltb_spec (numberOfChannels audioBuffer) 1); [lia |].
  destruct (Z.eqb_spec (ToUint32 (requestedLength P audioBuffer playbackRate)) 0);
    [contradiction |].
  destruct (Z.leb_spec (context_sampleRate P) 0); [lia |].
  rewrite Hfin. cbn [orb]. rewrite bind_Ok. unfold startRendering.
  cbn [oc_numberOfChannels oc_length].
  destruct (Z.ltb_spec (render_capacity P)
              (ToUint32 (requestedLength P audioBuffer playbackRate)
               * numberOfChannels audioBuffer)); [lia |].
  eauto.
Qed.

(** The container of a rendering that exists. *)
Lemma transformAudio_of_render (pitchShift playbackRate : num)
    (rendered : AudioBuffer) :
  transformAudio_render P audioBlob pitchShift playbackRate = Ok rendered ->
  transformAudio P audioBlob pitchShift playbackRate
    = Ok (wav_bytes rendered) /\
  byteLength (wav_bytes rendered) =
    ToUint32 (requestedLength P audioBuffer playbackRate)
    * numberOfChannels audioBuffer * 2 + 44.
Proof.
  intros Hr. unfold transformAudio. rewrite Hr, bind_Ok.
  apply transformAudio_render_inv in Hr as (HC & HCr & Hlen & HL & _ & _).
  assert (HL0 : 0 <= ab_length rendered).
  { rewrite Hlen. unfold ToUint32. apply Z.mod_pos_bound. lia. }
  split.
  - apply audioBufferToWav_closed_form; lia.
  - rewrite length_wav_bytes by lia. now rewrite <- Hlen, HCr.
Qed.

(** No container, when the context is accepted but the rendering is more
    than the platform has memory for. *)
Lemma transformAudio_refused (pitchShift playbackRate : num) :
  0 < context_sampleRate P < 2 ^ 32 ->
  0 < numberOfChannels audioBuffer ->
  ToUint32 (requestedLength P audioBuffer playbackRate) <> 0 ->
  render_capacity P
    < ToUint32 (requestedLength P audioBuffer playbackRate)
      * numberOfChannels audioBuffer ->
  exists e : exn,
    transformAudio P audioBlob pitchShift playbackRate = Throw e.
Proof.
  intros Hr HC HL Hcap. unfold transformAudio.
  rewrite transformAudio_render_run, transformAudio_graph_run. cbv zeta.
  destruct (Z.ltb_spec (numberOfChannels audioBuffer) 1); [lia |].
  destruct (Z.eqb_spec (ToUint32 (requestedLength P audioBuffer playbackRate)) 0);
    [contradiction |].
  destruct (Z.leb_spec (context_sampleRate P) 0); [lia |].
  cbn [orb]. destruct (is_float _); [| eauto].
  rewrite !bind_Ok. unfold startRendering.
  cbn [oc_numberOfChannels oc_length].
  destruct (Z.ltb_spec (render_capacity P)
              (ToUint32 (requestedLength P audioBuffer playbackRate)
               * numberOfChannels audioBuffer)); [eauto | lia].
Qed.

Hypothesis platform_ok : PlatformOk P.

(** For a positive speed, the frame count the context gets. *)
Lemma requested_frames (s : Q) :
  ab_length audioBuffer < 2 ^ 32 ->
  (pow2 (-64) <= s <= pow2 64)%Q ->
  (inject_Z (ab_length audioBuffer) <= 4294967294 * s)%Q ->
  let x := (inject_Z (ab_length audioBuffer) / s)%Q in
  let L := ToUint32 (requestedLength P audioBuffer (Fin s)) in
  Math_round x - 1 <= L <= Math_round x /\
  (((3 # 2) * s <= inject_Z (ab_length audioBuffer))%Q -> 1 <= L).
Proof.
  intros HN Hs Hx x L.
  destruct platform_ok as [Hpos Hhi Hwf Hrate].
  destruct (Hwf _ _ decoded) as [_ HN0 _ _ _].
  pose proof (pow2_pos (-64)) as Hp.
  assert (Hs0 : (0 < s)%Q) by lra.
  destruct (requestedLength_error P audioBuffer s) as (r & Er & Hr);
    [lia | now apply (Hrate audioBlob) | lia
    | rewrite Qabs_pos by lra; exact Hs |].
  fold x in Hr.
  assert (Hx0 : (0 <= x)%Q).
  { unfold x. apply Qle_shift_div_l; [exact Hs0 |]. rewrite Qmult_0_l.
    unfold Qle. simpl. lia. }
  assert (Hx1 : (x <= 4294967294)%Q).
  { unfold x. apply Qle_shift_div_r; [exact Hs0 | exact Hx]. }
  rewrite (Qabs_pos x Hx0) in Hr.
  destruct (near_round x r (conj Hx0 Hx1) Hr) as (Hr0 & HL & HR & H1).
  assert (EL : L = Qfloor r).
  { unfold L. rewrite Er. unfold ToUint32. cbn [ToIntegerOrZero].
    rewrite Qtrunc_nonneg by exact Hr0. apply Z.mod_small. lia. }
  rewrite EL. split; [exact HR |].
  intros H32. apply H1. unfold x.
  apply Qle_shift_div_l; [exact Hs0 | exact H32].
Qed.

(** C3: for a speed of the supported range [0.7, 1.3] the rendered buffer
    has [round(inputFrameCount / speedFactor)] frames or one frame less
    (the quotient is computed in binary64 and truncated), whatever the
    pitch shift; and there is a rendered buffer as soon as the input has
    two frames, the combined rate is a float and the platform has the
    memory. *)
Theorem rendered_frame_count (pitchShift : num) (s : Q) :
  (7 # 10 <= s <= 13 # 10)%Q ->
  ab_length audioBuffer < 2 ^ 31 ->
  let R := Math_round (inject_Z (ab_length audioBuffer) / s) in
  (forall rendered : AudioBuffer,
     transformAudio_render P audioBlob pitchShift (Fin s) = Ok rendered ->
     R - 1 <= ab_length rendered <= R) /\
  (2 <= ab_length audioBuffer ->
   is_float (combinedRate P pitchShift (Fin s)) = true ->
   R * numberOfChannels audioBuffer <= render_capacity P ->
   exists rendered : AudioBuffer,
     transformAudio_render P audioBlob pitchShift (Fin s) = Ok rendered).
Proof.
  intros [Hs0 Hs1] HN R.
  destruct (decode_wf P platform_ok _ _ decoded) as [_ HN0 HC _ _].
  assert (HNq : (inject_Z (ab_length audioBuffer) <= 2147483647)%Q).
  { change 2147483647%Q with (inject_Z 2147483647).
    rewrite <- Zle_Qle. lia. }
  assert (Hp0 : (pow2 (-64) <= 7 # 10)%Q)
    by (apply Qle_bool_imp_le; vm_compute; reflexivity).
  assert (Hp1 : (13 # 10 <= pow2 64)%Q)
    by (apply Qle_bool_imp_le; vm_compute; reflexivity).
  destruct (requested_frames s) as [HL H1];
    [lia | split; lra | lra |].
  fold R in HL.
  split.
  - intros rendered Hr.
    apply transformAudio_render_inv in Hr as (_ & _ & -> & _ & _ & _).
    exact HL.
  - intros H2 Hfin Hcap.
    assert (H2q : (2 <= inject_Z (ab_length audioBuffer))%Q).
    { change 2%Q with (inject_Z 2). rewrite <- Zle_Qle. lia. }
    specialize (H1 ltac:(lra)).
    apply transformAudio_render_ok.
    + lia.
    + lia.
    + apply (context_rate_pos P platform_ok).
    + exact Hfin.
    + nia.
Qed.

(** C9: the rendered buffer has the channel count of the decoded input and
    its sample rate, and the header of the container declares both. *)
Theorem channels_and_rate_preserved (pitchShift playbackRate : num) :
  (forall rendered : AudioBuffer,
     transformAudio_render P audioBlob pitchShift playbackRate
       = Ok rendered ->
     numberOfChannels rendered = numberOfChannels audioBuffer /\
     ab_sampleRate rendered = ab_sampleRate audioBuffer) /\
  (forall wav : ArrayBuffer,
     transformAudio P audioBlob pitchShift playbackRate = Ok wav ->
     getUint16 wav 22 = numberOfChannels audioBuffer /\
     getUint32 wav 24 = ab_sampleRate audioBuffer).
Proof.
  pose proof (decode_rate P platform_ok _ _ decoded) as Hrate.
  destruct (decode_wf P platform_ok _ _ decoded) as [Hr0 _ HC0 HC32 _].
  pose proof (context_rate_hi P platform_ok) as Hhi.
  split.
  - intros rendered Hr.
    apply transformAudio_render_inv in Hr as (_ & HC & _ & _ & Hsr & _).
    split; [exact HC | congruence].
  - intros wav. unfold transformAudio.
    destruct (transformAudio_render P audioBlob pitchShift playbackRate)
      as [rendered | e |] eqn:Hr; try discriminate.
    rewrite bind_Ok.
    apply transformAudio_render_inv in Hr as (_ & HC & Hlen & HL & Hsr & _).
    assert (HL0 : 0 <= ab_length rendered).
    { rewrite Hlen. unfold ToUint32. apply Z.mod_pos_bound. lia. }
    rewrite audioBufferToWav_closed_form by lia.
    intros [= <-]. unfold wav_bytes.
    match goal with
    | |- context [wav_header ?c ?l ?r ++ ?t] =>
        destruct (wav_header_fields c l r t) as (_ & H22 & H24 & _)
    end.
    rewrite H22, H24, HC, Hsr, <- Hrate.
    rewrite !Z.mod_small by lia. split; reflexivity.
Qed.

(** With a zero speed the context constructor is handed +Infinity frames,
    which it reads as 0 and refuses. *)
Lemma transformAudio_zero_speed (pitchShift : num) (s : Q) :
  ab_length audioBuffer < 2 ^ 32 ->
  (s == 0)%Q ->
  transformAudio P audioBlob pitchShift (Fin s) = Throw NotSupportedError.
Proof.
  intros HN Hs. unfold transformAudio.
  rewrite transformAudio_render_run, transformAudio_graph_run. cbv zeta.
  destruct platform_ok as [Hpos Hhi Hwf Hrate].
  destruct (Hwf _ _ decoded) as [_ HN0 _ _ _].
  rewrite (requestedLength_zero_speed P audioBuffer s)
    by (lia || assumption || now apply (Hrate audioBlob)).
  change (ToUint32 PInf) with 0. rewrite Z.eqb_refl, orb_true_r.
  reflexivity.
Qed.

(** C2, as the code has it: [transformAudio] raises no exception and
    returns a container of [L] frames whenever the platform lets three
    things pass: the frame count [L] that reaches the offline context (the
    binary64 [duration / speed * sampleRate], truncated, modulo 2^32) is not
    0, the combined rate is a float, and there is memory to render [L]
    frames of every channel.  This is so for every positive speed whose
    quotient [inputFrameCount / speed] is at least 1.5 and below 2^32 - 1:
    [L] is then that quotient rounded, or one less. *)
Theorem transformAudio_completes (pitchShift playbackRate : num) :
  let L := ToUint32 (requestedLength P audioBuffer playbackRate) in
  let C := numberOfChannels audioBuffer in
  is_float (combinedRate P pitchShift playbackRate) = true ->
  (L <> 0 ->
   L * C <= render_capacity P ->
   exists wav : ArrayBuffer,
     transformAudio P audioBlob pitchShift playbackRate = Ok wav /\
     byteLength wav = L * C * 2 + 44) /\
  (forall s : Q,
     playbackRate = Fin s ->
     ab_length audioBuffer < 2 ^ 32 ->
     (pow2 (-64) <= s <= pow2 64)%Q ->
     ((3 # 2) * s <= inject_Z (ab_length audioBuffer) <= 4294967294 * s)%Q ->
     Math_round (inject_Z (ab_length audioBuffer) / s) * C
       <= render_capacity P ->
     Math_round (inject_Z (ab_length audioBuffer) / s) - 1 <= L
       <= Math_round (inject_Z (ab_length audioBuffer) / s) /\
     exists wav : ArrayBuffer,
       transformAudio P audioBlob pitchShift playbackRate = Ok wav /\
       byteLength wav = L * C * 2 + 44).
Proof.
  intros L C Hfin.
  destruct (decode_wf P platform_ok _ _ decoded) as [_ _ HC _ _].
  assert (Hgen : L <> 0 -> L * C <= render_capacity P ->
                 exists wav : ArrayBuffer,
                   transformAudio P audioBlob pitchShift playbackRate
                     = Ok wav /\
                   byteLength wav = L * C * 2 + 44).
  { intros HL Hcap.
    destruct (transformAudio_render_ok pitchShift playbackRate)
      as [rendered Hr];
      [lia | exact HL | apply (context_rate_pos P platform_ok)
      | exact Hfin | exact Hcap |].
    exists (wav_bytes rendered).
    now apply transformAudio_of_render. }
  split; [exact Hgen |].
  intros s -> HN Hs [Hx0 Hx1] Hcap.
  destruct (requested_frames s HN Hs Hx1) as [HL H1].
  fold L in HL, H1. specialize (H1 Hx0).
  split; [exact HL |].
  apply Hgen; [lia |]. fold C in HC. nia.
Qed.

End Pipeline.

(** ** The pipeline on the small platform *)

Section Demo.

Lemma demo_platform_ok : PlatformOk demo_platform.
Proof.
  constructor.
  - reflexivity.
  - reflexivity.
  - intros [| x blob] b; [discriminate |]. intros [= <-].
    constructor; try (simpl; lia); try reflexivity.
    + unfold numberOfChannels. simpl. lia.
    + repeat constructor. simpl length.
      change (list_fmap Z num ?f blob) with (f <$> blob).
      now rewrite length_fmap.
  - intros [| x blob] b; [discriminate |]. now intros [= <-].
Qed.

Lemma demo_decoded : decodeAudioData demo_platform demo_blob = Ok demo_buffer.
Proof. reflexivity. Defined.

(** At four semitones up and speed 1.3 the four input frames give three
    output frames, [round (4 / 1.3)]; at speed 1, 27 input frames give 26,
    one less than [round (27 / 1)]. *)
Lemma rendered_frame_count_witness :
  (exists rendered : AudioBuffer,
     transformAudio_render demo_platform demo_blob (Fin 4) (Fin (13 # 10))
       = Ok rendered /\
     3 - 1 <= ab_length rendered <= 3 /\
     ab_length rendered = 3) /\
  (exists rendered : AudioBuffer,
     transformAudio_render demo_platform blob_27 (Fin 0) (Fin 1)
       = Ok rendered /\
     27 - 1 <= ab_length rendered <= 27 /\
     ab_length rendered = 26).
Proof.
  split.
  - destruct (rendered_frame_count demo_platform demo_blob _ demo_decoded
                demo_platform_ok (Fin 4) (13 # 10)) as [Hall Hex].
    + split; unfold Qle; simpl; lia.
    + simpl. lia.
    + destruct Hex as [rendered Hr];
        [simpl; lia | vm_compute; reflexivity | vm_compute; discriminate |].
      exists rendered. split; [exact Hr |].
      split; [exact (Hall rendered Hr) |].
      vm_compute in Hr. injection Hr as <-. reflexivity.
  - destruct (rendered_frame_count demo_platform blob_27 _ eq_refl
                demo_platform_ok (Fin 0) 1) as [Hall Hex].
    + split; unfold Qle; simpl; lia.
    + simpl. lia.
    + destruct Hex as [rendered Hr];
        [simpl; lia | vm_compute; reflexivity | vm_compute; discriminate |].
      exists rendered. split; [exact Hr |].
      split; [exact (Hall rendered Hr) |].
      vm_compute in Hr. injection Hr as <-. reflexivity.
Defined.

(** The frame count is decided in binary64.  With 27 frames at 48 kHz and
    speed 1, [27 / 48000 * 48000] is 26.999999999999996 and 26 frames are
    rendered, not 27.  With 15 frames at 44.1 kHz and speed 15,
    [15 / 44100 / 15 * 44100] is 0.9999999999999999: the context is asked
    for 0 frames. *)
Theorem binary64_frame_counts :
  requestedLength demo_platform
    {| ab_sampleRate := 48000; ab_length := 27; ab_channels := [] |} (Fin 1)
    = Fin (7599824371187711 # 281474976710656) /\
  (exists rendered : AudioBuffer,
     transformAudio_render demo_platform blob_27 (Fin 0) (Fin 1)
       = Ok rendered /\
     ab_length rendered = 26) /\
  let P441 :=
    {| context_sampleRate := 44100;
       decodeAudioData := demo_decode;
       Math_pow := demo_pow;
       render_sample := demo_render;
       render_capacity := 2 ^ 28 |} in
  let b15 :=
    {| ab_sampleRate := 44100; ab_length := 15; ab_channels := [] |} in
  requestedLength P441 b15 (Fin 15)
    = Fin (9007199254740991 # 9007199254740992) /\
  ToUint32 (requestedLength P441 b15 (Fin 15)) = 0.
Proof.
  split; [vm_compute; reflexivity |]. split.
  - eexists. split; [vm_compute; reflexivity | reflexivity].
  - cbv zeta. split; vm_compute; reflexivity.
Qed.

Lemma channels_and_rate_preserved_witness :
  exists wav : ArrayBuffer,
    transformAudio demo_platform demo_blob (Fin 4) (Fin (13 # 10)) = Ok wav /\
    getUint16 wav 22 = 1 /\ getUint32 wav 24 = 48000.
Proof.
  destruct (channels_and_rate_preserved demo_platform demo_blob _
              demo_decoded demo_platform_ok (Fin 4) (Fin (13 # 10)))
    as [_ Hwav].
  eexists. split; [vm_compute; reflexivity |].
  apply Hwav. vm_compute. reflexivity.
Defined.


(** C2, the claim as written fails at both speeds it names.  With the
    finite parameters 0 semitones and speed 0 the transform throws: the
    context is asked for +Infinity frames, reads 0 and refuses.  With speed
    -1 the four input frames give the frame count -4, which reaches the
    context as 2^32 - 4, more than there is memory to render.  A finite
    pitch can be refused too: at 12 * 2^128 semitones the combined rate is
    beyond binary32 and the [AudioParam] raises a TypeError. *)
Lemma transformAudio_zero_speed_throws :
  transformAudio demo_platform demo_blob (Fin 0) (Fin 0)
    = Throw NotSupportedError /\
  ~ (exists wav : ArrayBuffer,
       transformAudio demo_platform demo_blob (Fin 0) (Fin 0) = Ok wav) /\
  ToUint32 (requestedLength demo_platform demo_buffer (Fin (-1)))
    = 2 ^ 32 - 4 /\
  transformAudio demo_platform demo_blob (Fin 0) (Fin (-1))
    = Throw NotSupportedError /\
  transformAudio demo_platform demo_blob (Fin (inject_Z (12 * 2 ^ 128)))
    (Fin 1) = Throw TypeError.
Proof.
  assert (H : transformAudio demo_platform demo_blob (Fin 0) (Fin 0)
              = Throw NotSupportedError).
  { apply (transformAudio_zero_speed demo_platform demo_blob _ demo_decoded
             demo_platform_ok); reflexivity. }
  split; [exact H |]. split; [| split; [| split]].
  - intros [wav Hwav]. rewrite H in Hwav. discriminate.
  - vm_compute. reflexivity.
  - vm_compute. reflexivity.
  - vm_compute. reflexivity.
Qed.

Lemma transformAudio_completes_witness :
  exists wav : ArrayBuffer,
    transformAudio demo_platform demo_blob (Fin (-12)) (Fin (7 # 10))
      = Ok wav /\
    byteLength wav = 5 * 1 * 2 + 44.
Proof.
  refine (proj1 (transformAudio_completes demo_platform demo_blob _
                   demo_decoded demo_platform_ok (Fin (-12)) (Fin (7 # 10))
                   _) _ _).
  - vm_compute. reflexivity.
  - vm_compute. discriminate.
  - vm_compute. discriminate.
Defined.

End Demo.

(** * Further properties of the encoder and of the pipeline *)

Section EncoderMore.

(** [audioBufferToWav] on a well-formed buffer raises nothing (no write
    leaves the buffer), its loop ends, and the container is the header, the
    frames the loop reaches, then the untouched zeros. *)
Theorem audioBufferToWav_returns (b : AudioBuffer) :
  wf_AudioBuffer b ->
  audioBufferToWav b =
  Ok (wav_header (numberOfChannels b)
        (ab_length b * numberOfChannels b * 2 + 44) (ab_sampleRate b) ++
      data_bytes (ab_channels b) 0
        (Z.to_nat (Z.max 0 (ab_length b - 22 / numberOfChannels b))) ++
      replicate
        (Z.to_nat ((ab_length b
                    - Z.max 0 (ab_length b - 22 / numberOfChannels b))
                   * numberOfChannels b * 2)) 0).
Proof.
  intros [_ HN HC _ _].
  rewrite audioBufferToWav_closed_form by lia. reflexivity.
Qed.

Lemma wf_demo_buffer : wf_AudioBuffer demo_buffer.
Proof.
  constructor; try (vm_compute; (reflexivity || discriminate)).
  repeat constructor.
Defined.

Lemma audioBufferToWav_returns_witness :
  exists wav : ArrayBuffer,
    audioBufferToWav demo_buffer = Ok wav /\ byteLength wav = 52.
Proof.
  exists (wav_bytes demo_buffer). split.
  - rewrite (audioBufferToWav_returns demo_buffer wf_demo_buffer).
    vm_compute. reflexivity.
  - vm_compute. reflexivity.
Defined.

(** The slot of frame [f] and channel [c] in the container that is
    returned: the quantized sample when [f] is below
    [frameCount - 22 / channelCount], zero from there on. *)
Theorem data_section_contents (b : AudioBuffer) (wav : ArrayBuffer)
    (f : Z) (c : nat) (ch : list num) :
  wf_AudioBuffer b ->
  audioBufferToWav b = Ok wav ->
  0 <= f < ab_length b ->
  ab_channels b !! c = Some ch ->
  getInt16 wav (44 + (f * numberOfChannels b + Z.of_nat c) * 2) =
  if f <? ab_length b - 22 / numberOfChannels b
  then quantize (sample_at ch f) else 0.
Proof.
  intros [_ HN HC _ _] Hwav Hf Hc.
  rewrite audioBufferToWav_closed_form in Hwav by lia.
  injection Hwav as <-.
  rewrite (data_section_sample b f c ch Hf Hc). unfold frames_written.
  destruct (Z.ltb_spec f (Z.max 0 (ab_length b - 22 / numberOfChannels b))),
    (Z.ltb_spec f (ab_length b - 22 / numberOfChannels b));
    reflexivity || lia.
Qed.

Lemma data_section_contents_witness :
  exists wav : ArrayBuffer,
    audioBufferToWav full_scale_24 = Ok wav /\
    getInt16 wav (44 + (1 * 1 + 0) * 2) = 32767 /\
    getInt16 wav (44 + (2 * 1 + 0) * 2) = 0.
Proof.
  exists (wav_bytes full_scale_24).
  assert (Hwav : audioBufferToWav full_scale_24
                 = Ok (wav_bytes full_scale_24))
    by (vm_compute; reflexivity).
  split; [exact Hwav |]. split.
  - change (44 + (1 * 1 + 0) * 2)
      with (44 + (1 * numberOfChannels full_scale_24 + Z.of_nat 0) * 2).
    rewrite (data_section_contents full_scale_24 _ 1 0%nat
               (replicate 24 (Fin 1)) wf_full_scale_24 Hwav);
      [vm_compute; reflexivity | unfold full_scale_24; simpl; lia
      | reflexivity].
  - change (44 + (2 * 1 + 0) * 2)
      with (44 + (2 * numberOfChannels full_scale_24 + Z.of_nat 0) * 2).
    rewrite (data_section_contents full_scale_24 _ 2 0%nat
               (replicate 24 (Fin 1)) wf_full_scale_24 Hwav);
      [vm_compute; reflexivity | unfold full_scale_24; simpl; lia
      | reflexivity].
Defined.

(** From 23 channels on, [22 / channelCount] is 0 and the loop reaches
    every frame: the data section then holds every sample. *)
Theorem data_section_complete_from_23_channels (b : AudioBuffer)
    (wav : ArrayBuffer) (f : Z) (c : nat) (ch : list num) :
  wf_AudioBuffer b ->
  23 <= numberOfChannels b ->
  audioBufferToWav b = Ok wav ->
  0 <= f < ab_length b ->
  ab_channels b !! c = Some ch ->
  getInt16 wav (44 + (f * numberOfChannels b + Z.of_nat c) * 2) =
  quantize (sample_at ch f).
Proof.
  intros [_ HN HC _ _] H23 Hwav Hf Hc.
  rewrite audioBufferToWav_closed_form in Hwav by lia.
  injection Hwav as <-.
  rewrite (data_section_sample b f c ch Hf Hc). unfold frames_written.
  rewrite Z.div_small by lia.
  destruct (Z.ltb_spec f (Z.max 0 (ab_length b - 0))); [reflexivity | lia].
Qed.

(** A clip of at most 22 samples in all is encoded as silence: the loop
    does not run once, and the data section is the zeros the buffer was
    created with. *)
Theorem short_clip_encodes_silence (b : AudioBuffer) (wav : ArrayBuffer) :
  wf_AudioBuffer b ->
  ab_length b * numberOfChannels b <= 22 ->
  audioBufferToWav b = Ok wav ->
  drop 44 wav =
  replicate (Z.to_nat (ab_length b * numberOfChannels b * 2)) 0.
Proof.
  intros [_ HN HC _ _] Hshort Hwav.
  rewrite audioBufferToWav_closed_form in Hwav by lia.
  injection Hwav as <-. unfold wav_bytes, frames_written. cbv zeta.
  assert (Hq : ab_length b <= 22 / numberOfChannels b)
    by (apply Z.div_le_lower_bound; lia).
  rewrite Z.max_l by lia.
  rewrite drop_app_length' by (now rewrite length_wav_header).
  change (Z.to_nat 0) with 0%nat.
  change (data_bytes (ab_channels b) 0 0) with (@nil Z).
  rewrite app_nil_l, Z.sub_0_r. reflexivity.
Qed.

Lemma short_clip_encodes_silence_witness :
  exists wav : ArrayBuffer,
    audioBufferToWav demo_buffer = Ok wav /\
    drop 44 wav = replicate 8 0.
Proof.
  exists (wav_bytes demo_buffer).
  assert (Hwav : audioBufferToWav demo_buffer = Ok (wav_bytes demo_buffer))
    by (vm_compute; reflexivity).
  split; [exact Hwav |].
  rewrite (short_clip_encodes_silence demo_buffer _ wf_demo_buffer);
    [reflexivity | vm_compute; discriminate | exact Hwav].
Defined.

(** The fixed part of the header: the tags RIFF, WAVE, fmt and data at
    offsets 0, 8, 12 and 36, a format chunk of 16 bytes, format 1 (PCM). *)
Theorem wav_header_tags (b : AudioBuffer) (wav : ArrayBuffer) :
  wf_AudioBuffer b ->
  audioBufferToWav b = Ok wav ->
  take 4 wav = ascii_bytes "RIFF" /\
  take 4 (drop 8 wav) = ascii_bytes "WAVE" /\
  take 4 (drop 12 wav) = ascii_bytes "fmt " /\
  getUint32 wav 16 = 16 /\
  getUint16 wav 20 = 1 /\
  take 4 (drop 36 wav) = ascii_bytes "data".
Proof.
  intros [_ HN HC _ _] Hwav.
  rewrite audioBufferToWav_closed_form in Hwav by lia.
  injection Hwav as <-. unfold wav_bytes. cbv zeta.
  repeat split; reflexivity.
Qed.

Lemma wav_header_tags_witness :
  exists wav : ArrayBuffer,
    audioBufferToWav demo_buffer = Ok wav /\
    take 4 wav = ascii_bytes "RIFF".
Proof.
  exists (wav_bytes demo_buffer).
  assert (Hwav : audioBufferToWav demo_buffer = Ok (wav_bytes demo_buffer))
    by (vm_compute; reflexivity).
  split; [exact Hwav |].
  apply (wav_header_tags demo_buffer _ wf_demo_buffer Hwav).
Defined.

Lemma data_section_complete_from_23_channels_witness :
  exists wav : ArrayBuffer,
    audioBufferToWav wide_buffer = Ok wav /\
    getInt16 wav (44 + (0 * 23 + 22) * 2) = 16383.
Proof.
  exists (wav_bytes wide_buffer).
  assert (Hwav : audioBufferToWav wide_buffer = Ok (wav_bytes wide_buffer))
    by (vm_compute; reflexivity).
  split; [exact Hwav |].
  change (44 + (0 * 23 + 22) * 2)
    with (44 + (0 * numberOfChannels wide_buffer + Z.of_nat 22) * 2).
  rewrite (data_section_complete_from_23_channels wide_buffer _ 0 22%nat
             [Fin (1 # 2)]).
  - vm_compute. reflexivity.
  - constructor;
      [reflexivity | reflexivity | reflexivity | vm_compute; discriminate
      | repeat constructor].
  - vm_compute. discriminate.
  - exact Hwav.
  - unfold wide_buffer; simpl; lia.
  - reflexivity.
Defined.

(** The quantizer is monotone: a larger sample never gets a smaller
    code. *)
Theorem quantize_monotone (q1 q2 : Q) :
  (q1 <= q2)%Q -> quantize (Fin q1) <= quantize (Fin q2).
Proof.
  intros H12.
  destruct (quantize_no_wrap (Fin q1)) as [-> _].
  destruct (quantize_no_wrap (Fin q2)) as [-> _].
  destruct (clamp_sample_Fin q1) as (c1 & -> & E1).
  destruct (clamp_sample_Fin q2) as (c2 & -> & E2).
  assert (Hc : (c1 <= c2)%Q).
  { rewrite E1, E2. apply Q.max_le_compat_l. now apply Q.min_le_compat_l. }
  unfold scale_sample, num_ltb, num_of_Z. cbn [num_mul ToIntegerOrZero].
  destruct (Qlt_le_dec c1 (inject_Z 0)) as [H1 | H1],
           (Qlt_le_dec c2 (inject_Z 0)) as [H2 | H2];
    cbn [num_mul ToIntegerOrZero]; unfold inject_Z in *.
  - apply Qtrunc_mono. lra.
  - transitivity (Qtrunc 0); [apply Qtrunc_mono; lra |].
    apply Qtrunc_mono. lra.
  - lra.
  - apply Qtrunc_mono. lra.
Qed.

Lemma quantize_monotone_witness :
  quantize (Fin (-3 # 4)) <= quantize (Fin (1 # 3)).
Proof. apply quantize_monotone. unfold Qle. simpl. lia. Defined.

End EncoderMore.

Section PipelineMore.

Variable P : Platform.
Variable audioBlob : list Z.
Variable audioBuffer : AudioBuffer.
Hypothesis decoded : decodeAudioData P audioBlob = Ok audioBuffer.
Hypothesis platform_ok : PlatformOk P.

(** Once the input is decoded, [transformAudio] ends in one of four ways,
    decided by the frame count [L] that reaches the context, by the
    combined rate and by the memory of the platform: NotSupportedError when
    [L] is 0, TypeError when the rate is not a float, NotSupportedError
    when [L] frames of every channel are more than can be rendered, a
    container of [L] frames otherwise.  It never raises a RangeError and
    its loop always ends. *)
Theorem transformAudio_outcomes (pitchShift playbackRate : num) :
  let L := ToUint32 (requestedLength P audioBuffer playbackRate) in
  let C := numberOfChannels audioBuffer in
  let rate := combinedRate P pitchShift playbackRate in
  (L = 0 /\
   transformAudio P audioBlob pitchShift playbackRate
     = Throw NotSupportedError) \/
  (L <> 0 /\ is_float rate = false /\
   transformAudio P audioBlob pitchShift playbackRate = Throw TypeError) \/
  (L <> 0 /\ is_float rate = true /\ render_capacity P < L * C /\
   transformAudio P audioBlob pitchShift playbackRate
     = Throw NotSupportedError) \/
  (L <> 0 /\ is_float rate = true /\ L * C <= render_capacity P /\
   exists wav : ArrayBuffer,
     transformAudio P audioBlob pitchShift playbackRate = Ok wav /\
     byteLength wav = L * C * 2 + 44).
Proof.
  intros L C rate.
  destruct (decode_wf P platform_ok _ _ decoded) as [_ _ HC _ _].
  pose proof (context_rate_pos P platform_ok) as Hr.
  destruct (Z.eq_dec L 0) as [HL | HL].
  - left. split; [exact HL |]. unfold transformAudio.
    rewrite (transformAudio_render_run P audioBlob).
    rewrite (transformAudio_graph_run P audioBlob audioBuffer decoded).
    cbv zeta. fold L. rewrite HL, orb_true_r. reflexivity.
  - right. destruct (is_float rate) eqn:Hfin.
    + right. destruct (Z.lt_ge_cases (render_capacity P) (L * C))
        as [Hcap | Hcap].
      * left. split; [exact HL |]. split; [reflexivity |].
        split; [exact Hcap |]. unfold transformAudio.
        rewrite (transformAudio_render_run P audioBlob).
        rewrite (transformAudio_graph_run P audioBlob audioBuffer decoded).
        cbv zeta. fold L C rate. rewrite Hfin.
        destruct (Z.ltb_spec C 1); [lia |].
        destruct (Z.eqb_spec L 0); [contradiction |].
        destruct (Z.leb_spec (context_sampleRate P) 0); [lia |].
        cbn [orb]. rewrite !bind_Ok. unfold startRendering.
        cbn [oc_numberOfChannels oc_length].
        destruct (Z.ltb_spec (render_capacity P) (L * C)); [reflexivity | lia].
      * right. split; [exact HL |]. split; [reflexivity |].
        split; [exact Hcap |].
        destruct (transformAudio_render_ok P audioBlob audioBuffer decoded
                    pitchShift playbackRate) as [rendered Hrd];
          [fold C; lia | exact HL | exact Hr | exact Hfin | exact Hcap |].
        exists (wav_bytes rendered).
        now apply (transformAudio_of_render P audioBlob audioBuffer decoded).
    + left. split; [exact HL |]. split; [reflexivity |].
      unfold transformAudio.
      rewrite (transformAudio_render_run P audioBlob).
      rewrite (transformAudio_graph_run P audioBlob audioBuffer decoded).
      cbv zeta. fold L C rate. rewrite Hfin.
      destruct (Z.ltb_spec C 1); [lia |].
      destruct (Z.eqb_spec L 0); [contradiction |].
      destruct (Z.leb_spec (context_sampleRate P) 0); [lia |].
      reflexivity.
Qed.

(** A negative speed gives a negative frame count [-k], with [k] the
    quotient [inputFrameCount / -speed] rounded or one less; it reaches the
    context as the unsigned long [2^32 - k], and where there is memory for
    fewer than 2^31 samples the transform ends in an exception. *)
Theorem negative_speed_wraps (pitchShift : num) (s : Q) :
  ab_length audioBuffer < 2 ^ 32 ->
  (pow2 (-64) <= - s <= pow2 64)%Q ->
  ((3 # 2) * - s <= inject_Z (ab_length audioBuffer) <= 1073741824 * - s)%Q ->
  let k := 2 ^ 32 - ToUint32 (requestedLength P audioBuffer (Fin s)) in
  let R := Math_round (inject_Z (ab_length audioBuffer) / - s) in
  (R - 1 <= k <= R /\ 1 <= k <= 2 ^ 30) /\
  (render_capacity P < 2 ^ 31 ->
   exists e : exn,
     transformAudio P audioBlob pitchShift (Fin s) = Throw e).
Proof.
  intros HN Hs [Hy0 Hy1] k R.
  destruct platform_ok as [Hpos Hhi Hwf Hrate].
  destruct (Hwf _ _ decoded) as [_ HN0 HC _ _].
  pose proof (pow2_pos (-64)) as Hp.
  assert (Hs0 : (0 < - s)%Q) by lra.
  assert (Hsne : ~ (s == 0)%Q) by (intros E; lra).
  destruct (requestedLength_error P audioBuffer s) as (r & Er & Hr);
    [lia | now apply (Hrate audioBlob) | lia
    | rewrite Qabs_neg by lra; exact Hs |].
  cbv zeta in Hr.
  set (y := (inject_Z (ab_length audioBuffer) / - s)%Q) in *.
  assert (Ey : (inject_Z (ab_length audioBuffer) / s == - y)%Q)
    by (unfold y; field; repeat split; (exact Hsne || (intros E; lra))).
  assert (Hy0' : (3 # 2 <= y)%Q)
    by (unfold y; apply Qle_shift_div_l; [exact Hs0 | exact Hy0]).
  assert (Hy1' : (y <= 1073741824)%Q)
    by (unfold y; apply Qle_shift_div_r; [exact Hs0 | exact Hy1]).
  rewrite Ey, Qabs_opp, (Qabs_pos y) in Hr by lra.
  assert (Hr' : (Qabs (- r - y) <= y * (4 * f64_eps))%Q).
  { assert (E : (- r - y == - (r - - y))%Q) by ring.
    now rewrite E, Qabs_opp. }
  destruct (near_round y (- r) ltac:(split; lra) Hr')
    as (Hr0 & Hk & HR & H1).
  specialize (H1 Hy0'). fold R in HR.
  assert (HR30 : R <= 2 ^ 30).
  { unfold R, Math_round.
    pose proof (Qfloor_le (y + (1 # 2))) as Hm.
    assert (H : (inject_Z (Qfloor (y + (1 # 2))) < inject_Z (2 ^ 30 + 1))%Q).
    { change (inject_Z (2 ^ 30 + 1)) with 1073741825%Q. lra. }
    rewrite <- Zlt_Qlt in H. lia. }
  assert (EL : ToUint32 (requestedLength P audioBuffer (Fin s))
               = 2 ^ 32 - Qfloor (- r)).
  { rewrite Er. unfold ToUint32. cbn [ToIntegerOrZero].
    rewrite Qtrunc_nonpos by lra. unfold Qceiling.
    symmetry. apply Z.mod_unique with (q := -1); lia. }
  assert (Ek : k = Qfloor (- r)) by (unfold k; rewrite EL; lia).
  split; [rewrite Ek; lia |].
  intros Hcap.
  apply (transformAudio_refused P audioBlob audioBuffer decoded
           pitchShift (Fin s) (conj Hpos Hhi) HC).
  - rewrite EL. lia.
  - rewrite EL. nia.
Qed.

End PipelineMore.

Section DemoMore.

Lemma transformAudio_outcomes_witness :
  exists wav : ArrayBuffer,
    transformAudio demo_platform demo_blob (Fin 12) (Fin 2) = Ok wav /\
    byteLength wav = 2 * 1 * 2 + 44.
Proof.
  destruct (transformAudio_outcomes demo_platform demo_blob _ demo_decoded
              demo_platform_ok (Fin 12) (Fin 2))
    as [[H0 _] | [(_ & Hf & _)
                 | [(_ & _ & Hc & _) | (_ & _ & _ & wav & Hwav & Hlen)]]].
  - vm_compute in H0. discriminate.
  - vm_compute in Hf. discriminate.
  - vm_compute in Hc. discriminate.
  - exists wav. split; [exact Hwav |]. rewrite Hlen. vm_compute. reflexivity.
Defined.

Lemma negative_speed_wraps_witness :
  exists e : exn,
    transformAudio demo_platform demo_blob (Fin 0) (Fin (-1)) = Throw e.
Proof.
  refine (proj2 (negative_speed_wraps demo_platform demo_blob _ demo_decoded
                   demo_platform_ok (Fin 0) (-1) _ _ _) _).
  - vm_compute. reflexivity.
  - split; apply Qle_bool_imp_le; vm_compute; reflexivity.
  - split; apply Qle_bool_imp_le; vm_compute; reflexivity.
  - vm_compute. reflexivity.
Defined.

End DemoMore.

(** * The profile page *)

Section ProfilePageProps.

Variable B : ProfilePage.Browser.
Variable profileLink : string.
Variables pitch0 speed0 : num.

Lemma step_keeps_no_preview (ev : ProfilePage.Event)
    (pg pg' : ProfilePage.Page) (effs : list ProfilePage.Effect) :
  ev <> ProfilePage.previewClick ->
  ProfilePage.transformedAudioBlob pg = None ->
  ProfilePage.step B profileLink pitch0 speed0 ev pg = Ok (pg', effs) ->
  ProfilePage.transformedAudioBlob pg' = None.
Proof.
  intros Hev Hnone.
  destruct ev; cbn [ProfilePage.step]; try congruence;
    try (intros [= <- _]; exact Hnone).
  - unfold ProfilePage.on_presetClick.
    destruct (voicePresets !! presetName); [| destruct (bool_decide _)];
      intros [= <- _]; exact Hnone.
  - intros [= <- _]. reflexivity.
Qed.

Lemma run_keeps_no_preview (evs : list ProfilePage.Event)
    (pg pg' : ProfilePage.Page) :
  Forall (fun ev => ev <> ProfilePage.previewClick) evs ->
  ProfilePage.transformedAudioBlob pg = None ->
  ProfilePage.run B profileLink pitch0 speed0 evs pg = Ok pg' ->
  ProfilePage.transformedAudioBlob pg' = None.
Proof.
  intros Hevs. revert pg.
  induction Hevs as [| ev evs Hev _ IH]; intros pg Hnone; cbn.
  - now intros [= <-].
  - destruct (ProfilePage.step B profileLink pitch0 speed0 ev pg)
      as [[pg1 effs] | e |] eqn:Hstep; try discriminate.
    apply IH. eapply step_keeps_no_preview; eassumption.
Qed.

(** Until a preview is asked for, Send uploads the recording as it was
    recorded: choosing a preset or moving a slider changes the label and
    the numbers that go with the upload, never the audio. *)
Theorem send_without_preview_uploads_recording
    (evs : list ProfilePage.Event) (pg : ProfilePage.Page)
    (original : list Z) :
  Forall (fun ev => ev <> ProfilePage.previewClick) evs ->
  ProfilePage.run B profileLink pitch0 speed0 evs
    (ProfilePage.loaded pitch0 speed0) = Ok pg ->
  ProfilePage.originalAudioBlob pg = Some original ->
  ProfilePage.on_sendClick B profileLink pg =
  [ProfilePage.upload
     {| ProfilePage.recipient_profile := profileLink;
        ProfilePage.audio_data := ProfilePage.blobToBase64 B original;
        ProfilePage.transformation_type := ProfilePage.currentPreset pg;
        ProfilePage.pitch_shift := ProfilePage.pitchSlider pg;
        ProfilePage.speed_rate := ProfilePage.speedSlider pg;
        ProfilePage.duration := ProfilePage.getAudioDuration B original |}].
Proof.
  intros Hevs Hrun Horig.
  pose proof (run_keeps_no_preview evs (ProfilePage.loaded pitch0 speed0)
                pg Hevs eq_refl Hrun) as Hnone.
  unfold ProfilePage.on_sendClick. now rewrite Horig, Hnone.
Qed.

Lemma step_keeps_preview (ev : ProfilePage.Event)
    (pg pg' : ProfilePage.Page) (effs : list ProfilePage.Effect)
    (wav : list Z) :
  ev <> ProfilePage.previewClick /\ ev <> ProfilePage.anotherClick ->
  ProfilePage.transformedAudioBlob pg = Some wav ->
  is_Some (ProfilePage.originalAudioBlob pg) ->
  ProfilePage.step B profileLink pitch0 speed0 ev pg = Ok (pg', effs) ->
  ProfilePage.transformedAudioBlob pg' = Some wav /\
  is_Some (ProfilePage.originalAudioBlob pg').
Proof.
  intros [Hev1 Hev2] Hwav Horig.
  destruct ev; cbn [ProfilePage.step]; try congruence;
    try (intros [= <- _]; split; [exact Hwav | exact Horig || (cbn; eauto)]).
  unfold ProfilePage.on_presetClick.
  destruct (voicePresets !! presetName); [| destruct (bool_decide _)];
    intros [= <- _]; split; assumption.
Qed.

(** A preview, once made, is what Send uploads from then on: a new
    recording, another preset or other slider values do not replace it,
    while the label and the numbers sent are those of the moment. *)
Theorem preview_outlives_changes (pg0 pg : ProfilePage.Page)
    (original wav : list Z) (evs : list ProfilePage.Event) :
  ProfilePage.originalAudioBlob pg0 = Some original ->
  transformAudio (ProfilePage.platform B) original
    (ProfilePage.pitchSlider pg0) (ProfilePage.speedSlider pg0) = Ok wav ->
  Forall (fun ev => ev <> ProfilePage.previewClick
                    /\ ev <> ProfilePage.anotherClick) evs ->
  ProfilePage.run B profileLink pitch0 speed0
    (ProfilePage.previewClick :: evs) pg0 = Ok pg ->
  ProfilePage.on_sendClick B profileLink pg =
  [ProfilePage.upload
     {| ProfilePage.recipient_profile := profileLink;
        ProfilePage.audio_data := ProfilePage.blobToBase64 B wav;
        ProfilePage.transformation_type := ProfilePage.currentPreset pg;
        ProfilePage.pitch_shift := ProfilePage.pitchSlider pg;
        ProfilePage.speed_rate := ProfilePage.speedSlider pg;
        ProfilePage.duration := ProfilePage.getAudioDuration B wav |}].
Proof.
  intros Horig Hwav Hevs.
  cbn [ProfilePage.run ProfilePage.step].
  unfold ProfilePage.on_previewClick. rewrite Horig, Hwav.
  match goal with
  | |- ProfilePage.run _ _ _ _ _ ?pg1 = _ -> _ =>
      assert (Hinv : ProfilePage.transformedAudioBlob pg1 = Some wav /\
                     is_Some (ProfilePage.originalAudioBlob pg1))
        by (split; [reflexivity | cbn; eauto]);
      generalize dependent pg1
  end.
  induction Hevs as [| ev evs Hev _ IH]; intros pg1 Hinv; cbn.
  - intros [= <-]. destruct Hinv as [Ht [o Ho]].
    unfold ProfilePage.on_sendClick. now rewrite Ho, Ht.
  - destruct (ProfilePage.step B profileLink pitch0 speed0 ev pg1)
      as [[pg2 effs] | e |] eqn:Hstep; try discriminate.
    apply IH. destruct Hinv as [Ht Ho].
    eapply step_keeps_preview; eassumption.
Qed.

End ProfilePageProps.

Section ProfilePageDemo.

Lemma send_without_preview_uploads_recording_witness :
  exists pg : ProfilePage.Page,
    ProfilePage.run demo_browser "ana" (Fin 0) (Fin 1)
      [ProfilePage.dataavailable demo_blob; ProfilePage.stop;
       ProfilePage.presetClick "deep-male"]
      (ProfilePage.loaded (Fin 0) (Fin 1)) = Ok pg /\
    ProfilePage.currentPreset pg = "deep-male"%string /\
    ProfilePage.on_sendClick demo_browser "ana" pg =
    [ProfilePage.upload
       {| ProfilePage.recipient_profile := "ana";
          ProfilePage.audio_data :=
            ProfilePage.blobToBase64 demo_browser demo_blob;
          ProfilePage.transformation_type := ProfilePage.currentPreset pg;
          ProfilePage.pitch_shift := ProfilePage.pitchSlider pg;
          ProfilePage.speed_rate := ProfilePage.speedSlider pg;
          ProfilePage.duration :=
            ProfilePage.getAudioDuration demo_browser demo_blob |}].
Proof.
  eexists. split; [vm_compute; reflexivity |]. split; [reflexivity |].
  apply (send_without_preview_uploads_recording demo_browser "ana"
           (Fin 0) (Fin 1)
           [ProfilePage.dataavailable demo_blob; ProfilePage.stop;
            ProfilePage.presetClick "deep-male"]).
  - repeat constructor; discriminate.
  - vm_compute. reflexivity.
  - vm_compute. reflexivity.
Defined.

Lemma preview_outlives_changes_witness :
  exists (pg : ProfilePage.Page) (wav : list Z),
    ProfilePage.run demo_browser "ana" (Fin 0) (Fin 1)
      [ProfilePage.previewClick; ProfilePage.dataavailable [128; 200];
       ProfilePage.stop; ProfilePage.presetClick "robotic"] demo_page
      = Ok pg /\
    transformAudio demo_platform demo_blob (Fin 4) (Fin (13 # 10)) = Ok wav /\
    ProfilePage.originalAudioBlob pg = Some [128; 200] /\
    ProfilePage.currentPreset pg = "robotic"%string /\
    ProfilePage.on_sendClick demo_browser "ana" pg =
    [ProfilePage.upload
       {| ProfilePage.recipient_profile := "ana";
          ProfilePage.audio_data := ProfilePage.blobToBase64 demo_browser wav;
          ProfilePage.transformation_type := ProfilePage.currentPreset pg;
          ProfilePage.pitch_shift := ProfilePage.pitchSlider pg;
          ProfilePage.speed_rate := ProfilePage.speedSlider pg;
          ProfilePage.duration :=
            ProfilePage.getAudioDuration demo_browser wav |}].
Proof.
  do 2 eexists.
  split; [vm_compute; reflexivity |].
  split; [vm_compute; reflexivity |].
  split; [reflexivity |]. split; [reflexivity |].
  apply (preview_outlives_changes demo_browser "ana" (Fin 0) (Fin 1)
           demo_page _
           demo_blob _
           [ProfilePage.dataavailable [128; 200]; ProfilePage.stop;
            ProfilePage.presetClick "robotic"]).
  - reflexivity.
  - vm_compute. reflexivity.
  - repeat constructor; discriminate.
  - vm_compute. reflexivity.
Defined.

End ProfilePageDemo.

(** * Accounts kept in localStorage *)

Section LocalAuthProps.

Lemma empty_false (s : string) : LocalAuth.empty s = false -> s <> ""%string.
Proof. unfold LocalAuth.empty. now intros H%String.eqb_neq. Qed.

Lemma existsb_email_false (users : list LocalAuth.User) (e : string) :
  existsb (fun u => String.eqb (LocalAuth.email u) e) users = false ->
  e ∉ LocalAuth.email <$> users.
Proof.
  intros Hex Hin. apply list_elem_of_fmap in Hin as (u & -> & Hu).
  assert (existsb (fun u0 => String.eqb (LocalAuth.email u0)
                               (LocalAuth.email u)) users = true);
    [| congruence].
  apply existsb_exists. exists u. split.
  - now apply list_elem_of_In.
  - apply String.eqb_refl.
Qed.

(** What every handler keeps of the storage: the registered emails are
    pairwise distinct, no account has an empty name or email or a password
    under six characters, and the user logged in is a registered one. *)
Lemma act_keeps_consistent (a : LocalAuth.Action) (st : LocalAuth.Storage) :
  LocalAuth.consistent st -> LocalAuth.consistent (LocalAuth.act a st).
Proof.
  intros (Hnd & Hall & Hcur). destruct a as [e p | form now |]; cbn.
  - unfold LocalAuth.handleLogin.
    destruct (LocalAuth.empty e || LocalAuth.empty p);
      [repeat split; assumption |].
    destruct (find _ (LocalAuth.stored_users st)) as [user |] eqn:Hfind;
      [| repeat split; assumption].
    split; [exact Hnd |]. split; [exact Hall |].
    cbn. intros u [= <-].
    apply find_some in Hfind as [Hin _]. now apply list_elem_of_In.
  - unfold LocalAuth.handleSignup.
    destruct (LocalAuth.empty (LocalAuth.fullname_value form)) eqn:E1;
      [repeat split; assumption |].
    destruct (LocalAuth.empty (LocalAuth.email_value form)) eqn:E2;
      [repeat split; assumption |].
    destruct (LocalAuth.empty (LocalAuth.password_value form)) eqn:E3;
      [repeat split; assumption |].
    destruct (LocalAuth.empty (LocalAuth.confirmPassword_value form));
      [repeat split; assumption |].
    cbn [orb].
    destruct (negb _); [repeat split; assumption |].
    destruct (Nat.ltb_spec
                (String.length (LocalAuth.password_value form)) 6)
      as [Hlen | Hlen]; [repeat split; assumption |].
    destruct (existsb _ (LocalAuth.stored_users st)) eqn:Hex;
      [repeat split; assumption |].
    unfold LocalAuth.consistent.
    cbn [fst LocalAuth.users LocalAuth.currentUser LocalAuth.stored_users
         default from_option id].
    fold (LocalAuth.stored_users st).
    split; [| split].
    + rewrite fmap_app. apply NoDup_app. split; [exact Hnd |]. split.
      * intros x Hx ->%list_elem_of_singleton.
        now apply existsb_email_false in Hex.
      * apply NoDup_singleton.
    + apply Forall_app. split; [exact Hall |].
      repeat constructor; cbn; auto using empty_false.
    + intros u Hu. apply elem_of_app. left. now apply Hcur.
  - split; [exact Hnd |]. split; [exact Hall |]. intros u [=].
Qed.

(** In every storage reached from a fresh browser by logins, signups and
    logouts, in any order and with any inputs: the registered emails are
    pairwise distinct, every account has a name, an email and a password of
    six characters or more, and the user logged in is a registered one. *)
Theorem accounts_stay_consistent (actions : list LocalAuth.Action) :
  LocalAuth.consistent (LocalAuth.run actions LocalAuth.fresh).
Proof.
  assert (H : forall st, LocalAuth.consistent st ->
                         LocalAuth.consistent (LocalAuth.run actions st)).
  { induction actions as [| a actions IH]; intros st Hst; [exact Hst |].
    apply IH. now apply act_keeps_consistent. }
  apply H. repeat split.
  - constructor.
  - constructor.
  - intros u [=].
Qed.

Lemma find_app_last {A : Type} (f : A -> bool) (l : list A) (x : A) :
  existsb f l = false -> f x = true -> find f (l ++ [x]) = Some x.
Proof.
  intros Hl Hx. induction l as [| y l IH]; cbn in *.
  - now rewrite Hx.
  - apply orb_false_elim in Hl as [Hy Hl]. rewrite Hy. now apply IH.
Qed.

Lemma existsb_false_weaken {A : Type} (g f : A -> bool) (l : list A) :
  existsb g l = false ->
  (forall x, f x = true -> g x = true) ->
  existsb f l = false.
Proof.
  intros Hg Hfg. induction l as [| y l IH]; cbn in *; [reflexivity |].
  apply orb_false_elim in Hg as [Hy Hl]. rewrite IH by exact Hl.
  destruct (f y) eqn:Hf; [| reflexivity].
  apply Hfg in Hf. congruence.
Qed.

(** An account that was just created can log in: after a signup that
    reports success, a login with the same email and password logs that
    very account in, whatever was stored before. *)
Theorem signup_then_login (form : LocalAuth.SignupForm) (now : string)
    (st : LocalAuth.Storage) :
  (LocalAuth.handleSignup form now st).2 =
    [LocalAuth.showMessage
       "Account created successfully! Redirecting to login..." "success";
     LocalAuth.redirect "login.html" 1500] ->
  let st' := (LocalAuth.handleSignup form now st).1 in
  LocalAuth.handleLogin (LocalAuth.email_value form)
    (LocalAuth.password_value form) st' =
  ({| LocalAuth.users := LocalAuth.users st';
      LocalAuth.currentUser :=
        Some {| LocalAuth.fullname := LocalAuth.fullname_value form;
                LocalAuth.email := LocalAuth.email_value form;
                LocalAuth.password := LocalAuth.password_value form;
                LocalAuth.createdAt := now |} |},
   [LocalAuth.showMessage "Login successful! Redirecting..." "success";
    LocalAuth.redirect "index.html" 1000]).
Proof.
  unfold LocalAuth.handleSignup.
  destruct (LocalAuth.empty (LocalAuth.fullname_value form));
    [discriminate |].
  destruct (LocalAuth.empty (LocalAuth.email_value form)) eqn:E2;
    [discriminate |].
  destruct (LocalAuth.empty (LocalAuth.password_value form)) eqn:E3;
    [discriminate |].
  destruct (LocalAuth.empty (LocalAuth.confirmPassword_value form));
    [discriminate |].
  cbn [orb]. destruct (negb _); [discriminate |].
  destruct (_ <? 6)%nat; [discriminate |].
  destruct (existsb _ (LocalAuth.stored_users st)) eqn:Hex;
    [discriminate |].
  intros _. cbv zeta. cbn [fst].
  unfold LocalAuth.handleLogin. rewrite E2, E3. cbn [orb].
  unfold LocalAuth.stored_users at 1.
  cbn [LocalAuth.users default from_option id].
  rewrite find_app_last; [reflexivity | |].
  - apply (existsb_false_weaken _ _ _ Hex).
    intros u Hu. now apply andb_prop in Hu as [-> _].
  - cbn. now rewrite !String.eqb_refl.
Qed.

Lemma signup_then_login_witness :
  LocalAuth.currentUser
    (LocalAuth.handleLogin (LocalAuth.email_value demo_signup)
       (LocalAuth.password_value demo_signup)
       (LocalAuth.handleSignup demo_signup "2024-05-01T10:00:00.000Z"
          LocalAuth.fresh).1).1 =
  Some {| LocalAuth.fullname := "Ana";
          LocalAuth.email := "ana@example.org";
          LocalAuth.password := "secret1";
          LocalAuth.createdAt := "2024-05-01T10:00:00.000Z" |}.
Proof.
  rewrite (signup_then_login demo_signup "2024-05-01T10:00:00.000Z"
             LocalAuth.fresh); reflexivity.
Defined.

(** A login reports success exactly when both fields are filled and some
    registered account has this email and this password; it never touches
    the registered accounts, and the user it logs in has these
    credentials. *)
Theorem login_succeeds_iff (e p : string) (st : LocalAuth.Storage) :
  ((LocalAuth.handleLogin e p st).2 =
     [LocalAuth.showMessage "Login successful! Redirecting..." "success";
      LocalAuth.redirect "index.html" 1000]
   <-> e <> ""%string /\ p <> ""%string /\
       exists u, u ∈ LocalAuth.stored_users st /\
                 LocalAuth.email u = e /\ LocalAuth.password u = p) /\
  LocalAuth.users (LocalAuth.handleLogin e p st).1 = LocalAuth.users st /\
  (forall u, LocalAuth.currentUser (LocalAuth.handleLogin e p st).1 = Some u ->
     LocalAuth.currentUser st = Some u \/
     (u ∈ LocalAuth.stored_users st /\
      LocalAuth.email u = e /\ LocalAuth.password u = p)).
Proof.
  unfold LocalAuth.handleLogin, LocalAuth.empty.
  destruct (String.eqb_spec e "") as [He | He]; cbn [orb].
  { repeat split; try discriminate; tauto. }
  destruct (String.eqb_spec p "") as [Hp | Hp]; cbn [orb].
  { repeat split; try discriminate; tauto. }
  destruct (find _ (LocalAuth.stored_users st)) as [user |] eqn:Hfind.
  - apply find_some in Hfind as [Hin Hf].
    apply andb_prop in Hf as [He'%String.eqb_eq Hp'%String.eqb_eq].
    apply list_elem_of_In in Hin.
    repeat split; try assumption; eauto 6.
    cbn. intros u [= <-]. right. auto.
  - split; [| split]; [| reflexivity | cbn; auto].
    split; [discriminate |]. intros (_ & _ & u & Hu & <- & <-).
    apply list_elem_of_In in Hu.
    pose proof (find_none _ _ Hfind u Hu) as Hf. cbn in Hf.
    now rewrite !String.eqb_refl in Hf.
Qed.

Lemma login_succeeds_iff_witness :
  (LocalAuth.handleLogin "ana@example.org" "secret1"
     (LocalAuth.handleSignup demo_signup "2024-05-01T10:00:00.000Z"
        LocalAuth.fresh).1).2 =
  [LocalAuth.showMessage "Login successful! Redirecting..." "success";
   LocalAuth.redirect "index.html" 1000].
Proof.
  apply (proj1 (login_succeeds_iff "ana@example.org" "secret1" _)).
  split; [discriminate |]. split; [discriminate |].
  eexists. split; [apply list_elem_of_singleton; reflexivity |].
  split; reflexivity.
Defined.

End LocalAuthProps.

(** * The inbox page *)

Section InboxProps.

(** A call to the API carries the stored token: with a token in storage
    the Authorization header of the request is Bearer and that token, also
    when the caller passed an Authorization header of its own, and every
    other header of the caller is sent as given. *)
Theorem apiCall_sends_stored_token (endpoint : string)
    (options : Inbox.Options) (token : string) :
  token <> ""%string ->
  let request := Inbox.apiCall_request endpoint options (Some token) in
  Inbox.req_headers request !! "Authorization"%string
    = Some ("Bearer " ++ token)%string /\
  forall k v, k <> "Authorization"%string ->
    default ∅ (Inbox.headers options) !! k = Some v ->
    Inbox.req_headers request !! k = Some v.
Proof.
  intros Htoken request. subst request. unfold Inbox.apiCall_request.
  cbn [Inbox.getAuthToken Inbox.truthy Inbox.req_headers default
       from_option id].
  destruct (String.eqb_spec token "") as [| _]; [contradiction |].
  cbn [negb]. split.
  - apply lookup_insert_eq.
  - intros k v Hk Hv. rewrite lookup_insert_ne by congruence.
    now apply lookup_union_Some_l.
Qed.

Lemma apiCall_sends_stored_token_witness :
  Inbox.req_headers
    (Inbox.apiCall_request "/api/me"
       {| Inbox.method := None;
          Inbox.headers :=
            Some {[ "Authorization"%string := "Basic abc"%string ]};
          Inbox.body := None |}
       (Some "t0k3n"%string)) !! "Authorization"%string
  = Some "Bearer t0k3n"%string.
Proof.
  refine (proj1 (apiCall_sends_stored_token "/api/me" _ "t0k3n" _)).
  discriminate.
Defined.

Lemma run_cons {J : Type} (fetch : Inbox.Request -> Inbox.Response J)
    (call : string * Inbox.Options) (calls : list (string * Inbox.Options))
    (st : Inbox.Storage) :
  Inbox.run fetch (call :: calls) st =
  Inbox.run fetch calls (Inbox.apiCall fetch call.1 call.2 st).1.1.
Proof. reflexivity. Qed.

Lemma run_logged_out {J : Type} (fetch : Inbox.Request -> Inbox.Response J)
    (calls : list (string * Inbox.Options)) :
  Inbox.run fetch calls None = None.
Proof.
  induction calls as [| call calls IH]; [reflexivity |].
  rewrite run_cons.
  replace (Inbox.apiCall fetch call.1 call.2 None).1.1 with (@None string);
    [exact IH |].
  unfold Inbox.apiCall.
  now destruct (Inbox.status
                  (fetch (Inbox.apiCall_request call.1 call.2 None)) =? 401).
Qed.

(** A 401 logs the page out for good: the call that gets it removes the
    token and returns null, and after any further calls there is still no
    token, so that [checkAuth] sends the visitor to the login page. *)
Theorem unauthorized_logs_out {J : Type}
    (fetch : Inbox.Request -> Inbox.Response J)
    (endpoint : string) (options : Inbox.Options) (st : Inbox.Storage)
    (calls : list (string * Inbox.Options)) :
  Inbox.status (fetch (Inbox.apiCall_request endpoint options st)) = 401 ->
  (Inbox.apiCall fetch endpoint options st).2 = None /\
  Inbox.run fetch ((endpoint, options) :: calls) st = None /\
  Inbox.checkAuth (Inbox.run fetch ((endpoint, options) :: calls) st)
    = (false, [Inbox.redirect "/login.html"]).
Proof.
  intros H401.
  assert (Hrun : Inbox.run fetch ((endpoint, options) :: calls) st = None).
  { rewrite run_cons. cbn [fst snd]. unfold Inbox.apiCall.
    rewrite H401. cbn. apply run_logged_out. }
  rewrite Hrun. unfold Inbox.apiCall. rewrite H401. repeat split.
Qed.

Lemma unauthorized_logs_out_witness :
  Inbox.run (fun _ => {| Inbox.status := 401; Inbox.json := tt |})
    [("/api/me"%string, Inbox.no_options);
     ("/api/stats"%string, Inbox.no_options)] (Some "t0k3n"%string)
  = None.
Proof.
  refine (proj1 (proj2 (unauthorized_logs_out
           (fun _ => {| Inbox.status := 401; Inbox.json := tt |})
           "/api/me" Inbox.no_options (Some "t0k3n"%string)
           [("/api/stats"%string, Inbox.no_options)] _))).
  reflexivity.
Defined.

End InboxProps.
